(** * ophyd/_dispatch.py: the callback dispatcher

    A shallow embedding of [_CallbackThread], [EventDispatcher] and
    [wrap_callback].  Python objects that are shared by reference (queues,
    thread objects) live in a store and are named by their address; the
    threads of the program are interleaved by a labelled step function, one
    atomic action per step. *)

From Stdlib Require Import ZArith QArith Decimal DecimalString DecimalNat.
From stdpp Require Import base option list gmap strings sorting.

Open Scope string_scope.
Open Scope list_scope.

(** ** Python values, exceptions and callables *)

(** The arguments that travel with a task. *)
Inductive value :=
| VNone
| VInt (z : Z)
| VStr (s : string).

(** A keyword-argument dict, in call order. *)
Definition kwargs := list (string * value).

(** [kwargs.get(key)]: the value bound to [key], [None] when absent. *)
Fixpoint kwargs_get (key : string) (kw : kwargs) : value :=
  match kw with
  | [] => VNone
  | (k, v) :: kw' => if String.eqb k key then v else kwargs_get key kw'
  end.

(** Exceptions.  The first four derive from [Exception]; [SystemExiting]
    stands for the ones that derive from [BaseException] only
    ([SystemExit], [KeyboardInterrupt], [GeneratorExit]), which
    [except Exception] lets through. *)
Inductive exn :=
| AssertionError
| AttributeError (attr : string)
| ValueError (msg : string)
| UserError (msg : string)
| SystemExiting (msg : string).

Definition is_Exception (e : exn) : bool :=
  match e with
  | SystemExiting _ => false
  | _ => true
  end.

(** A callable object.
    - [Func n m body] is a callable supplied by a client: [n] is its
      [__name__] attribute if it has one (a [functools.partial] object or an
      instance with [__call__] has none), [m] is the truth value of
      [getattr(f, '_wrapped_callback', False)], and [body args kwargs]
      acts on the clients' shared environment and returns or raises.
    - [wrapped q cb] is the closure [wrapped] that [wrap_callback] returns:
      it captured the queue object at address [q] and the callback [cb]. *)
Inductive callable :=
| Func (__name__ : option string) (_wrapped_callback : bool)
       (body : list value -> kwargs -> list value -> list value * (value + exn))
| wrapped (callback_queue : nat) (callback : callable).

(** One unit of deferred work: the tuple [(callback, args, kwargs)]. *)
Definition Task : Type := callable * list value * kwargs.

(** [callback.__name__].  [functools.wraps] copies the attribute of the
    callback onto the closure when the callback has one; otherwise the
    closure keeps the name of its [def], ["wrapped"]. *)
Fixpoint name_of (c : callable) : option string :=
  match c with
  | Func n _ _ => n
  | wrapped _ cb =>
      match name_of cb with
      | Some n => Some n
      | None => Some "wrapped"
      end
  end.

(** [getattr(callback, '_wrapped_callback', False)], as a truth value. *)
Definition is_wrapped (c : callable) : bool :=
  match c with
  | Func _ m _ => m
  | wrapped _ _ => true
  end.

(** ** Logger and diagnostics output *)

Inductive log_record :=
| LogDebug (fmt : string) (args : list value)
| LogException (fmt : string) (callback : callable) (pvname : value).

(** ** Threads *)

(** Where a [_CallbackThread] stands in [run].  Between two phases the
    thread performs one atomic action. *)
Inductive phase :=
| Started             (* start() was called, run() has not logged yet *)
| LoopHead            (* about to evaluate [self.stop_event.is_set()] *)
| Polling             (* inside [self.queue.get(True, self.timeout)] *)
| Running (t : Task)  (* a task was unpacked, line 41 of the [try] is next *)
| Calling (t : Task)  (* line 41 is done, the call of line 42 is next *)
| Exiting             (* the loop is left, [detach_context] is next *)
| Exited              (* run() returned *)
| Crashed (e : exn).  (* an exception left run() *)

(** The attributes of a [_CallbackThread] object.  [dispatcher], [logger]
    and [stop_event] are references to objects of the dispatcher and are
    read from the state.  The timeout is a number of seconds, of either
    sign; [None], with which [queue.get] would wait without limit, has no
    counterpart here. *)
Record _CallbackThread := mkThread {
  t_name : string;
  t_context : value;
  current_callback : option (string * value);
  t_queue : nat;
  t_timeout : Q;
  t_daemon : bool;
  t_phase : phase
}.

(** [Thread.is_alive()]: from [start()] until [run()] terminates. *)
Definition is_alive (w : _CallbackThread) : bool :=
  match t_phase w with
  | Exited | Crashed _ => false
  | _ => true
  end.

(** ** History *)

(** What happened so far; the code does not read it. *)
Inductive event :=
| EvPut (q : nat) (t : Task)                    (* queue.put *)
| EvGet (tid q : nat) (t : Task)                (* queue.get returned t *)
| EvBegin (tid : nat) (t : Task)                (* line 41 stored the identity *)
| EvCall (c : callable) (args : list value) (kw : kwargs)   (* c(...) *)
| EvRun (tid : nat) (t : Task) (r : value + exn).  (* the inner try ended *)

(** Where the diagnostics thread stands in [_debug_monitor]. *)
Inductive monitor_phase :=
| Testing     (* about to evaluate [self._stop_event.is_set()], line 92 *)
| Reporting   (* the test found the event unset, lines 93-103 are next *)
| Finished.   (* the loop is left, the thread is over *)

(** ** The state: an [EventDispatcher] and the objects it refers to *)

Record state := mkState {
  (* attributes of the EventDispatcher *)
  _threads : list (string * nat);    (* dict name -> thread, insertion order;
                                        [_start_thread] is its only writer,
                                        so no value is [None] *)
  _timeout : Q;
  _stop_event : bool;
  context : value;
  _utility_threads : list string;
  _utility_queue : nat;
  _debug_monitor_thread : option monitor_phase;  (* None: not created *)
  (* the store: thread objects by address (allocated in order), queue
     objects by address, and the next free queue address *)
  thread_store : list _CallbackThread;
  queue_store : gmap nat (list Task);
  next_queue : nat;
  (* the world around the dispatcher *)
  logger : list log_record;
  stdout : list (list (string * nat * option (string * value)));
  world : list value;
  (* the thread that is inside stop(): the joins it still has to do *)
  stopper : option (list (string * nat));
  history : list event
}.

(** Field updates. *)

Definition set__threads (x : list (string * nat)) (s : state) : state :=
  mkState x (_timeout s) (_stop_event s) (context s) (_utility_threads s)
    (_utility_queue s) (_debug_monitor_thread s) (thread_store s)
    (queue_store s) (next_queue s) (logger s) (stdout s) (world s)
    (stopper s) (history s).

Definition set__stop_event (x : bool) (s : state) : state :=
  mkState (_threads s) (_timeout s) x (context s) (_utility_threads s)
    (_utility_queue s) (_debug_monitor_thread s) (thread_store s)
    (queue_store s) (next_queue s) (logger s) (stdout s) (world s)
    (stopper s) (history s).

Definition set__debug_monitor_thread (x : option monitor_phase) (s : state)
  : state :=
  mkState (_threads s) (_timeout s) (_stop_event s) (context s)
    (_utility_threads s) (_utility_queue s) x (thread_store s)
    (queue_store s) (next_queue s) (logger s) (stdout s) (world s)
    (stopper s) (history s).

Definition set_thread_store (x : list _CallbackThread) (s : state) : state :=
  mkState (_threads s) (_timeout s) (_stop_event s) (context s)
    (_utility_threads s) (_utility_queue s) (_debug_monitor_thread s) x
    (queue_store s) (next_queue s) (logger s) (stdout s) (world s)
    (stopper s) (history s).

Definition set_queue_store (x : gmap nat (list Task)) (s : state) : state :=
  mkState (_threads s) (_timeout s) (_stop_event s) (context s)
    (_utility_threads s) (_utility_queue s) (_debug_monitor_thread s)
    (thread_store s) x (next_queue s) (logger s) (stdout s) (world s)
    (stopper s) (history s).

Definition set_next_queue (x : nat) (s : state) : state :=
  mkState (_threads s) (_timeout s) (_stop_event s) (context s)
    (_utility_threads s) (_utility_queue s) (_debug_monitor_thread s)
    (thread_store s) (queue_store s) x (logger s) (stdout s) (world s)
    (stopper s) (history s).

Definition set_logger (x : list log_record) (s : state) : state :=
  mkState (_threads s) (_timeout s) (_stop_event s) (context s)
    (_utility_threads s) (_utility_queue s) (_debug_monitor_thread s)
    (thread_store s) (queue_store s) (next_queue s) x (stdout s) (world s)
    (stopper s) (history s).

Definition set_stdout (x : list (list (string * nat * option (string * value))))
  (s : state) : state :=
  mkState (_threads s) (_timeout s) (_stop_event s) (context s)
    (_utility_threads s) (_utility_queue s) (_debug_monitor_thread s)
    (thread_store s) (queue_store s) (next_queue s) (logger s) x (world s)
    (stopper s) (history s).

Definition set_world (x : list value) (s : state) : state :=
  mkState (_threads s) (_timeout s) (_stop_event s) (context s)
    (_utility_threads s) (_utility_queue s) (_debug_monitor_thread s)
    (thread_store s) (queue_store s) (next_queue s) (logger s) (stdout s) x
    (stopper s) (history s).

Definition set_stopper (x : option (list (string * nat)))
  (s : state) : state :=
  mkState (_threads s) (_timeout s) (_stop_event s) (context s)
    (_utility_threads s) (_utility_queue s) (_debug_monitor_thread s)
    (thread_store s) (queue_store s) (next_queue s) (logger s) (stdout s)
    (world s) x (history s).

Definition set_history (x : list event) (s : state) : state :=
  mkState (_threads s) (_timeout s) (_stop_event s) (context s)
    (_utility_threads s) (_utility_queue s) (_debug_monitor_thread s)
    (thread_store s) (queue_store s) (next_queue s) (logger s) (stdout s)
    (world s) (stopper s) x.

(** ** A state and exception monad for the code that one thread runs *)

(** A computation ends with a value or a raised exception; what it did to
    the state before raising stays done. *)
Definition M (A : Type) : Type := state -> (A + exn) * state.

Definition ret {A} (a : A) : M A := fun s => (inl a, s).

Definition raise {A} (e : exn) : M A := fun s => (inr e, s).

Definition bind {A B} (m : M A) (k : A -> M B) : M B :=
  fun s =>
    match m s with
    | (inl a, s') => k a s'
    | (inr e, s') => (inr e, s')
    end.

Notation "x <~ m ;; k" := (bind m (fun x => k))
  (at level 100, m at next level, right associativity).
Notation "m ;;; k" := (bind m (fun _ => k))
  (at level 100, right associativity).

Definition read {A} (f : state -> A) : M A := fun s => (inl (f s), s).

Definition modify (f : state -> state) : M unit := fun s => (inl tt, f s).

(** [try: m  except Exception as ex: handler ex]. *)
Definition try_except_Exception {A} (m : M A) (handler : exn -> M A) : M A :=
  fun s =>
    match m s with
    | (inl a, s') => (inl a, s')
    | (inr e, s') => if is_Exception e then handler e s' else (inr e, s')
    end.

(** [for x in l: f x]. *)
Fixpoint for_each {A} (l : list A) (f : A -> M unit) : M unit :=
  match l with
  | [] => ret tt
  | x :: l' => f x ;;; for_each l' f
  end.

(** ** Elementary updates of the state *)

Definition with_event (e : event) (s : state) : state :=
  set_history (history s ++ [e]) s.

Definition with_log (r : log_record) (s : state) : state :=
  set_logger (logger s ++ [r]) s.

Definition with_queue (q : nat) (items : list Task) (s : state) : state :=
  set_queue_store (<[q := items]> (queue_store s)) s.

Definition with_thread (tid : nat) (f : _CallbackThread -> _CallbackThread)
  (s : state) : state :=
  set_thread_store (alter f tid (thread_store s)) s.

Definition record (e : event) : M unit := modify (with_event e).

Definition log (r : log_record) : M unit := modify (with_log r).

(** ** Dicts keyed by strings, in insertion order *)

Fixpoint dict_get {V} (k : string) (d : list (string * V)) : option V :=
  match d with
  | [] => None
  | (k', v) :: d' => if String.eqb k' k then Some v else dict_get k d'
  end.

(** [d[k] = v]: an existing key keeps its place, a new one goes last. *)
Fixpoint dict_set {V} (k : string) (v : V) (d : list (string * V))
  : list (string * V) :=
  match d with
  | [] => [(k, v)]
  | (k', v') :: d' =>
      if String.eqb k' k then (k', v) :: d' else (k', v') :: dict_set k v d'
  end.

(** ** Queues *)

(** [queue.Queue()]: a new, empty, unbounded queue object. *)
Definition new_Queue : M nat :=
  q <~ read next_queue ;;
  modify (fun s => set_next_queue (S q) (with_queue q [] s)) ;;;
  ret q.

(** The tasks waiting in the queue at address [q]. *)
Definition contents (q : nat) (s : state) : list Task := queue_store s !!! q.

Arguments contents : simpl never.

Definition qsize (q : nat) (s : state) : nat := length (contents q s).

(** [q.put(t)]: never blocks, the queue is unbounded. *)
Definition queue_put (q : nat) (t : Task) : M unit :=
  modify (fun s => with_queue q (contents q s ++ [t]) s) ;;;
  record (EvPut q t).

(** ** Calling a callable *)

(** [c( *args, **kwargs)].  A client's function runs its body on the shared
    environment.  The closure [wrapped] is line 160:
    [callback_queue.put((callback, args, kwargs))], returning [None]. *)
Definition call (c : callable) (args : list value) (kw : kwargs) : M value :=
  record (EvCall c args kw) ;;;
  match c with
  | Func _ _ body =>
      fun s => let '(w', r) := body args kw (world s) in (r, set_world w' s)
  | wrapped callback_queue callback =>
      queue_put callback_queue (callback, args, kw) ;;;
      ret VNone
  end.

(** ** _CallbackThread *)

Definition thread_at (tid : nat) (s : state) : option _CallbackThread :=
  thread_store s !! tid.

Definition update_thread (tid : nat) (f : _CallbackThread -> _CallbackThread)
  : M unit :=
  modify (with_thread tid f).

Definition set_phase (p : phase) (w : _CallbackThread) : _CallbackThread :=
  mkThread (t_name w) (t_context w) (current_callback w) (t_queue w)
           (t_timeout w) (t_daemon w) p.

Definition set_current_callback (c : option (string * value))
  (w : _CallbackThread) : _CallbackThread :=
  mkThread (t_name w) (t_context w) c (t_queue w)
           (t_timeout w) (t_daemon w) (t_phase w).

Definition set_context (c : value) (w : _CallbackThread) : _CallbackThread :=
  mkThread (t_name w) c (current_callback w) (t_queue w)
           (t_timeout w) (t_daemon w) (t_phase w).

(** [__init__] (lines 10-23): a thread object that is not started yet is not
    in the store; [_start_thread] creates and starts it at once. *)
Definition _CallbackThread_init (name : string) (context : value)
  (timeout : Q) (callback_queue : option nat) (daemon : bool)
  : M _CallbackThread :=
  q <~ match callback_queue with
       | None => new_Queue
       | Some q => ret q
       end ;;
  ret (mkThread name context None q timeout daemon Started).

(** [attach_context] (lines 52-54). *)
Definition attach_context (w : _CallbackThread) : M unit :=
  log (LogDebug "Callback thread %s attaching to context %s"
         [VStr (t_name w); t_context w]).

(** [detach_context] (lines 56-59). *)
Definition detach_context (tid : nat) (w : _CallbackThread) : M unit :=
  log (LogDebug "Callback thread %s detaching from context %s"
         [VStr (t_name w); t_context w]) ;;;
  update_thread tid (set_context VNone).

(** Line 41, the first statement of the inner [try], for the task [t]:
    [self.current_callback = (callback.__name__, kwargs.get('pvname'))].
    Reading [__name__] raises when the callable has none. *)
Definition store_identity (tid : nat) (t : Task) : M unit :=
  let '(callback, _, kw) := t in
  n <~ match name_of callback with
       | Some n => ret n
       | None => raise (AttributeError "__name__")
       end ;;
  update_thread tid (set_current_callback (Some (n, kwargs_get "pvname" kw))) ;;;
  record (EvBegin tid t).

(** Line 42, the second statement: [callback( *args, **kwargs)]. *)
Definition call_task (t : Task) : M value :=
  let '(callback, args, kw) := t in
  call callback args kw.

(** [m], with its outcome written to the history. *)
Definition observed {A} (m : M A) (ev : A + exn -> event) : M A :=
  fun s => let '(r, s') := m s in (r, set_history (history s' ++ [ev r]) s').

(** The [except Exception] clause of the inner [try] (lines 43-47). *)
Definition handler (t : Task) (ex : exn) : M unit :=
  log (LogException "Exception occurred during callback %r (pvname=%r)"
         (fst (fst t)) (kwargs_get "pvname" (snd t))).

(** [timeout < 0], the test of [queue.get] on its timeout. *)
Definition negative (timeout : Q) : bool := negb (Qle_bool 0 timeout).

(** What [queue.get] raises, before it looks at the queue, when the timeout
    is negative. *)
Definition negative_timeout : exn :=
  ValueError "'timeout' must be a non-negative number".

(** ** EventDispatcher *)

(** [str(i)] for a natural number: its decimal digits. *)
Definition str (i : nat) : string := NilEmpty.string_of_uint (Nat.to_uint i).

(** [range(n)]: empty when [n] is not positive. *)
Definition range (n : Z) : list nat := seq 0 (Z.to_nat n).

(** The names of the utility threads: [f'util{i}' for i in range(n)]. *)
Definition util_names (n : Z) : list string :=
  map (fun i => String.append "util" (str i)) (range n).

(** [_start_thread] (lines 138-147).  The new thread object takes the next
    address of the store, is bound to [name] in [_threads] and is started. *)
Definition _start_thread (name : string) (callback_queue : option nat)
  : M unit :=
  tmo <~ read _timeout ;;
  ctx <~ read context ;;
  w <~ _CallbackThread_init name ctx tmo callback_queue true ;;
  tid <~ read (fun s => length (thread_store s)) ;;
  modify (fun s => set_thread_store (thread_store s ++ [w]) s) ;;;
  modify (fun s => set__threads (dict_set name tid (_threads s)) s).

(** The attributes that [__init__] assigns on lines 66-75, in a store that
    holds one object, the utility queue. *)
Definition fresh_dispatcher (ctx : value) (timeout : Q) (utility_threads : Z)
  : state :=
  {| _threads := [];
     _timeout := timeout;
     _stop_event := false;
     context := ctx;
     _utility_threads := util_names utility_threads;
     _utility_queue := 0;
     _debug_monitor_thread := None;
     thread_store := [];
     queue_store := {[ 0%nat := [] ]};
     next_queue := 1;
     logger := [];
     stdout := [];
     world := [];
     stopper := None;
     history := [] |}.

(** The rest of [__init__] (lines 77-89). *)
Definition __init__ (debug_monitor : bool) : M unit :=
  _start_thread "metadata" None ;;;
  _start_thread "monitor" None ;;;
  _start_thread "get_put" None ;;;
  names <~ read _utility_threads ;;
  uq <~ read _utility_queue ;;
  for_each names (fun name => _start_thread name (Some uq)) ;;;
  if debug_monitor
  then modify (set__debug_monitor_thread (Some Testing))
  else ret tt.

(** [EventDispatcher(context=ctx, logger=..., timeout=..., debug_monitor=...,
    utility_threads=...)] with the default [thread_class]. *)
Definition EventDispatcher (ctx : value) (timeout : Q) (debug_monitor : bool)
  (utility_threads : Z) : state :=
  snd (__init__ debug_monitor (fresh_dispatcher ctx timeout utility_threads)).

(** The defaults of the signature: [timeout=0.1], [debug_monitor=False],
    [utility_threads=4]. *)
Definition default_dispatcher : state := EventDispatcher VNone (1 # 10) false 4.

Definition alive (tid : nat) (s : state) : bool :=
  match thread_at tid s with
  | Some w => is_alive w
  | None => false
  end.

(** [is_alive] (lines 109-111). *)
Definition EventDispatcher_is_alive (s : state) : bool :=
  existsb (fun '(_, tid) => alive tid s) (_threads s).

(** [schedule_utility_task] (lines 134-136). *)
Definition schedule_utility_task (callback : callable) (args : list value)
  (kw : kwargs) : M unit :=
  uq <~ read _utility_queue ;;
  queue_put uq (callback, args, kw).

(** [wrap_callback] (lines 150-163); the dispatcher is the state.  The
    [assert] is the category check.  Every name of [_threads] is bound to a
    thread object of the store, so the last case does not occur in a state
    that the constructor and the steps below produce. *)
Definition wrap_callback (event_type : string) (callback : option callable)
  : M (option callable) :=
  match callback with
  | None => ret None
  | Some cb =>
      if is_wrapped cb then ret (Some cb)
      else
        d <~ read _threads ;;
        match dict_get event_type d with
        | None => raise AssertionError
        | Some tid =>
            th <~ read (thread_at tid) ;;
            match th with
            | Some w => ret (Some (wrapped (t_queue w) cb))
            | None => raise (AttributeError "queue")
            end
        end
  end.

(** [sorted] on the items of a dict. *)
Fixpoint insert_sorted {V} (x : string * V) (l : list (string * V))
  : list (string * V) :=
  match l with
  | [] => [x]
  | y :: l' => if String.leb (fst x) (fst y) then x :: l else y :: insert_sorted x l'
  end.

Definition sorted {V} (l : list (string * V)) : list (string * V) :=
  foldr insert_sorted [] l.

Definition queue_sizes (s : state)
  : list (string * nat * option (string * value)) :=
  omap (fun '(name, tid) =>
          w ← thread_at tid s;
          Some (name, qsize (t_queue w) s, current_callback w))
       (sorted (_threads s)).

(** One pass of the loop of [_debug_monitor] (lines 93-102); the text of the
    printed line is not modelled, its entries are. *)
Definition _debug_monitor_pass : M unit :=
  sizes <~ read queue_sizes ;;
  let status := filter (fun '(_, n, _) => (0 < n)%nat) sizes in
  match status with
  | [] => ret tt
  | _ => modify (fun s => set_stdout (stdout s ++ [status]) s)
  end.

(** ** The run loop of a worker, one atomic action at a time *)

(** What thread [tid], whose object is [w], does next in [run]
    (lines 29-50); [None] when [run] is over.  The two statements of the
    inner [try] are two actions, under the same [except] clause; the history
    notes where the [try] ends. *)
Definition run_step (tid : nat) (w : _CallbackThread) : option (M unit) :=
  match t_phase w with
  | Started =>
      Some (log (LogDebug "Callback thread %s started" [VStr (t_name w)]) ;;;
            attach_context w ;;;
            update_thread tid (set_phase LoopHead))
  | LoopHead =>
      Some (is_set <~ read _stop_event ;;
            update_thread tid (set_phase (if is_set then Exiting else Polling)))
  | Polling =>              (* self.queue.get(True, self.timeout) *)
      Some (if negative (t_timeout w) then raise negative_timeout
            else
              items <~ read (contents (t_queue w)) ;;
              match items with
              | [] =>           (* queue.Empty after the timeout *)
                  update_thread tid (set_phase LoopHead)
              | t :: rest =>
                  modify (with_queue (t_queue w) rest) ;;;
                  record (EvGet tid (t_queue w) t) ;;;
                  update_thread tid (set_phase (Running t))
              end)
  | Running t =>            (* line 41 *)
      Some (stored <~ try_except_Exception
                        (store_identity tid t ;;; ret true)
                        (fun ex =>
                           record (EvRun tid t (inr ex)) ;;;
                           handler t ex ;;;
                           ret false) ;;
            update_thread tid (set_phase (if stored then Calling t else LoopHead)))
  | Calling t =>            (* line 42 *)
      Some (try_except_Exception
              (observed (call_task t) (EvRun tid t) ;;; ret tt)
              (handler t) ;;;
            update_thread tid (set_phase LoopHead))
  | Exiting =>
      Some (detach_context tid w ;;;
            log (LogDebug "Callback thread %s exiting" [VStr (t_name w)]) ;;;
            update_thread tid (set_phase Exited))
  | Exited | Crashed _ => None
  end.

(** ** Interleaving *)

(** The atomic actions of the program.  [Tick tid] is the next action of the
    worker [tid]; [Invoke] and [ScheduleUtility] are calls by client threads;
    the three [Stop] labels are the thread that called [stop()]; [MonitorTick]
    is the next action of the diagnostics thread: the test of its loop
    (line 92), or the body that the test let it enter (lines 93-103). *)
Inductive label :=
| Tick (tid : nat)
| Invoke (c : callable) (args : list value) (kw : kwargs)
| ScheduleUtility (c : callable) (args : list value) (kw : kwargs)
| StopBegin
| StopJoin
| StopClear
| MonitorTick.

(** [step a s] is the state after action [a], or [None] when [a] cannot
    happen in [s] (the thread is blocked, over, or not at that point).
    An exception that leaves [run] ends the worker; one that leaves a
    client's call goes to the client. *)
Definition step (a : label) (s : state) : option state :=
  match a with
  | Tick tid =>
      w ← thread_at tid s;
      m ← run_step tid w;
      match m s with
      | (inl _, s') => Some s'
      | (inr e, s') => Some (snd (update_thread tid (set_phase (Crashed e)) s'))
      end
  | Invoke c args kw => Some (snd (call c args kw s))
  | ScheduleUtility c args kw => Some (snd (schedule_utility_task c args kw s))
  | StopBegin =>              (* lines 127-128: set the event, list the items *)
      match stopper s with
      | None => Some (set_stopper (Some (_threads s)) (set__stop_event true s))
      | Some _ => None
      end
  | StopJoin =>               (* lines 129-130: thread.join() returns *)
      match stopper s with
      | Some ((_, thread) :: rest) =>
          if alive thread s then None else Some (set_stopper (Some rest) s)
      | _ => None
      end
  | StopClear =>              (* line 132 *)
      match stopper s with
      | Some [] => Some (set_stopper None (set__threads [] s))
      | _ => None
      end
  | MonitorTick =>
      match _debug_monitor_thread s with
      | Some Testing =>
          Some (set__debug_monitor_thread
                  (Some (if _stop_event s then Finished else Reporting)) s)
      | Some Reporting =>
          Some (set__debug_monitor_thread (Some Testing)
                  (snd (_debug_monitor_pass s)))
      | _ => None
      end
  end.

(** A schedule is a list of actions; [exec] runs it. *)
Fixpoint exec (sched : list label) (s : state) : option state :=
  match sched with
  | [] => Some s
  | a :: sched' => step a s ≫= exec sched'
  end.

(** ** stop() *)

(** [thread.join()] as seen by the caller: the joined thread takes its own
    steps until it is over.  Once the stop event is set a worker is over
    within five steps ([join_total]); the fuel is never used up. *)
Fixpoint join (fuel : nat) (tid : nat) (s : state) : option state :=
  if alive tid s then
    match fuel with
    | O => None
    | S fuel' => step (Tick tid) s ≫= join fuel' tid
    end
  else Some s.

Fixpoint join_all (items : list (string * nat)) (s : state) : option state :=
  match items with
  | [] => Some s
  | (_, thread) :: items' =>
      s1 ← join 5 thread s;
      s2 ← step StopJoin s1;
      join_all items' s2
  end.

(** [stop] (lines 125-132), called by a thread that is not a worker, with no
    other thread moving than the one being joined; [None] when a call of
    [stop] is already in progress. *)
Definition stop (s : state) : option state :=
  s1 ← step StopBegin s;
  s2 ← join_all (_threads s) s1;
  step StopClear s2.

(** ** The steps of a worker in closed form *)

(** The identity that line 41 stores for a task, when the callable has a
    name. *)
Definition identity (t : Task) : option (string * value) :=
  n ← name_of (fst (fst t)); Some (n, kwargs_get "pvname" (snd t)).

(** The state in which the inner [try] statement leaves the worker when it
    ends, from the outcome [r] of its body: back at the head of the loop,
    after logging if [except Exception] caught [r]; over if the exception
    passed through. *)
Definition finish (tid : nat) (t : Task) (r : value + exn) (s : state) : state :=
  let s1 := with_event (EvRun tid t r) s in
  match r with
  | inl _ => with_thread tid (set_phase LoopHead) s1
  | inr e =>
      if is_Exception e
      then with_thread tid (set_phase LoopHead)
             (with_log (LogException
                          "Exception occurred during callback %r (pvname=%r)"
                          (fst (fst t)) (kwargs_get "pvname" (snd t))) s1)
      else with_thread tid (set_phase (Crashed e)) s1
  end.

(** [tick_to tid w s s']: the worker [tid], whose object is [w] in [s], takes
    [s] to [s'] by its next action. *)
Inductive tick_to (tid : nat) (w : _CallbackThread) (s : state) : state -> Prop :=
| tick_to_Started :
    t_phase w = Started ->
    tick_to tid w s
      (with_thread tid (set_phase LoopHead)
         (with_log (LogDebug "Callback thread %s attaching to context %s"
                      [VStr (t_name w); t_context w])
            (with_log (LogDebug "Callback thread %s started" [VStr (t_name w)])
               s)))
| tick_to_LoopHead :
    t_phase w = LoopHead ->
    tick_to tid w s
      (with_thread tid (set_phase (if _stop_event s then Exiting else Polling)) s)
| tick_to_Polling_negative :
    t_phase w = Polling ->
    negative (t_timeout w) = true ->
    tick_to tid w s (with_thread tid (set_phase (Crashed negative_timeout)) s)
| tick_to_Polling_empty :
    t_phase w = Polling ->
    negative (t_timeout w) = false ->
    contents (t_queue w) s = [] ->
    tick_to tid w s (with_thread tid (set_phase LoopHead) s)
| tick_to_Polling_task t rest :
    t_phase w = Polling ->
    negative (t_timeout w) = false ->
    contents (t_queue w) s = t :: rest ->
    tick_to tid w s
      (with_thread tid (set_phase (Running t))
         (with_event (EvGet tid (t_queue w) t)
            (with_queue (t_queue w) rest s)))
| tick_to_Running_named t i :
    t_phase w = Running t ->
    identity t = Some i ->
    tick_to tid w s
      (with_thread tid (set_phase (Calling t))
         (with_event (EvBegin tid t)
            (with_thread tid (set_current_callback (Some i)) s)))
| tick_to_Running_unnamed t :
    t_phase w = Running t ->
    identity t = None ->
    tick_to tid w s (finish tid t (inr (AttributeError "__name__")) s)
| tick_to_Calling t :
    t_phase w = Calling t ->
    tick_to tid w s
      (finish tid t (fst (call_task t s)) (snd (call_task t s)))
| tick_to_Exiting :
    t_phase w = Exiting ->
    tick_to tid w s
      (with_thread tid (set_phase Exited)
         (with_log (LogDebug "Callback thread %s exiting" [VStr (t_name w)])
            (with_thread tid (set_context VNone)
               (with_log (LogDebug "Callback thread %s detaching from context %s"
                            [VStr (t_name w); t_context w]) s)))).

(** ** Reading the history *)

(** The tasks whose [try] statement thread [tid] has ended, in order. *)
Definition runs_of (tid : nat) (h : list event) : list Task :=
  omap (fun e => match e with
                 | EvRun tid' t _ => if decide (tid' = tid) then Some t else None
                 | _ => None
                 end) h.

(** The tasks that thread [tid] has taken from its queue, in order. *)
Definition gets_of (tid : nat) (h : list event) : list Task :=
  omap (fun e => match e with
                 | EvGet tid' _ t => if decide (tid' = tid) then Some t else None
                 | _ => None
                 end) h.

(** The tasks taken from the queue at [q], in order. *)
Definition gets_from (q : nat) (h : list event) : list Task :=
  omap (fun e => match e with
                 | EvGet _ q' t => if decide (q' = q) then Some t else None
                 | _ => None
                 end) h.

(** The tasks put on the queue at [q], in order. *)
Definition puts_on (q : nat) (h : list event) : list Task :=
  omap (fun e => match e with
                 | EvPut q' t => if decide (q' = q) then Some t else None
                 | _ => None
                 end) h.

(** The callables that were called, in order. *)
Definition calls (h : list event) : list callable :=
  omap (fun e => match e with
                 | EvCall c _ _ => Some c
                 | _ => None
                 end) h.

(** The tasks for which thread [tid] has stored the identity (line 41), in
    order. *)
Definition begins_of (tid : nat) (h : list event) : list Task :=
  omap (fun e => match e with
                 | EvBegin tid' t => if decide (tid' = tid) then Some t else None
                 | _ => None
                 end) h.

(** [current_callback] after the events of [h], from its value [cur] before:
    each task that the thread begins overwrites it, nothing resets it. *)
Definition track (tid : nat) (h : list event) (cur : option (string * value))
  : option (string * value) :=
  foldl (fun c t => match identity t with Some i => Some i | None => c end)
        cur (begins_of tid h).

(** ** Observations on a thread *)

Definition phase_of (tid : nat) (s : state) : option phase :=
  t_phase <$> thread_at tid s.

Definition queue_of (tid : nat) (s : state) : option nat :=
  t_queue <$> thread_at tid s.

Definition current_of (tid : nat) (s : state) : option (string * value) :=
  thread_at tid s ≫= current_callback.

(** The task that the thread holds between [queue.get] and the end of the
    inner [try]. *)
Definition inflight (tid : nat) (s : state) : list Task :=
  match phase_of tid s with
  | Some (Running t) | Some (Calling t) => [t]
  | _ => []
  end.

(** The thread has found the stop event set, or is over. *)
Definition quitting (tid : nat) (s : state) : Prop :=
  match phase_of tid s with
  | Some Exiting | Some Exited | Some (Crashed _) => True
  | _ => False
  end.

(** No call of the callable ends in an exception that [except Exception]
    lets through. *)
Definition benign (c : callable) : Prop :=
  match c with
  | Func _ _ body =>
      forall args kw w e, snd (body args kw w) = inr e -> is_Exception e = true
  | wrapped _ _ => True
  end.

(** The worker [tid] is the only thread that reads the queue at [q]. *)
Definition private (q tid : nat) (s : state) : Prop :=
  queue_of tid s = Some q /\
  forall tid', queue_of tid' s = Some q -> tid' = tid.

(** Every name of [_threads] is bound to a thread object of the store. *)
Definition bound (s : state) : Prop :=
  forall name tid, dict_get name (_threads s) = Some tid ->
                   is_Some (thread_at tid s).

(** A thread that stands before or inside the call of a task shows the
    identity of that task. *)
Definition coherent (s : state) : Prop :=
  forall tid t, phase_of tid s = Some (Calling t) ->
                current_of tid s = identity t /\ is_Some (identity t).

(** Every thread that is alive is a value of [_threads]. *)
Definition managed (s : state) : Prop :=
  forall tid, alive tid s = true -> exists name, (name, tid) ∈ _threads s.

(** [s'] comes after [s]: what the history gained accounts for the queues,
    for the tasks in the hands of the workers and for [current_callback]. *)
Definition follows (s s' : state) : Prop :=
  exists h,
    history s' = history s ++ h /\
    (forall q, gets_from q h ++ contents q s' = contents q s ++ puts_on q h) /\
    (forall tid, runs_of tid h ++ inflight tid s' = inflight tid s ++ gets_of tid h) /\
    (forall tid, queue_of tid s' = queue_of tid s) /\
    (forall tid q t, EvGet tid q t ∈ h -> queue_of tid s = Some q) /\
    (forall tid, quitting tid s -> quitting tid s' /\ gets_of tid h = []) /\
    (forall tid, current_of tid s' = track tid h (current_of tid s)).

(** What no action undoes. *)
Definition persists (s s' : state) : Prop :=
  (_stop_event s = true -> _stop_event s' = true) /\
  (forall tid, alive tid s = false -> thread_at tid s' = thread_at tid s) /\
  length (thread_store s') = length (thread_store s).

(** The thread inside [stop()] has set the event and listed the items [ts]
    of [_threads]; the threads that it has joined are over. *)
Definition stopping (ts : list (string * nat)) (s : state) : Prop :=
  exists joined rest,
    stopper s = Some rest /\
    _threads s = ts /\
    ts = joined ++ rest /\
    _stop_event s = true /\
    forall name tid, (name, tid) ∈ joined -> alive tid s = false.

(** [stop()] has returned; [ts] were the items of [_threads]. *)
Definition stopped (ts : list (string * nat)) (s : state) : Prop :=
  stopper s = None /\
  _threads s = [] /\
  _stop_event s = true /\
  forall name tid, (name, tid) ∈ ts -> alive tid s = false.

(** ** Auxiliary definitions for the proofs *)

(** The events of a call: neither a [queue.get], nor line 41, nor the end
    of a [try]. *)
Definition quiet (e : event) : Prop :=
  match e with
  | EvPut _ _ | EvCall _ _ _ => True
  | _ => False
  end.

(** The thread objects of the three named categories, as [__init__] leaves
    them: each with the queue that its own [__init__] created. *)
Definition named_threads (ctx : value) (tmo : Q) : list _CallbackThread :=
  [mkThread "metadata" ctx None 1 tmo true Started;
   mkThread "monitor" ctx None 2 tmo true Started;
   mkThread "get_put" ctx None 3 tmo true Started].

(** A utility thread as [__init__] leaves it: on the utility queue. *)
Definition util_thread (ctx : value) (tmo : Q) (name : string) : _CallbackThread :=
  mkThread name ctx None 0 tmo true Started.

(** [EventDispatcher ctx tmo dbg n] in closed form (see
    [EventDispatcher_constructed]). *)
Definition constructed (ctx : value) (tmo : Q) (dbg : bool) (n : Z) : state :=
  {| _threads :=
       [("metadata", 0%nat); ("monitor", 1%nat); ("get_put", 2%nat)] ++
       imap (fun i name => (name, 3 + i)%nat) (util_names n);
     _timeout := tmo;
     _stop_event := false;
     context := ctx;
     _utility_threads := util_names n;
     _utility_queue := 0;
     _debug_monitor_thread := if dbg then Some Testing else None;
     thread_store := named_threads ctx tmo ++ map (util_thread ctx tmo) (util_names n);
     queue_store := <[3%nat := []]> (<[2%nat := []]> (<[1%nat := []]> {[ 0%nat := [] ]}));
     next_queue := 4;
     logger := [];
     stdout := [];
     world := [];
     stopper := None;
     history := [] |}.

(** An upper bound on the steps that a worker takes before it is over, once
    the stop event is set. *)
Definition distance (p : phase) : nat :=
  match p with
  | Polling => 5
  | Running _ => 4
  | Started | Calling _ => 3
  | LoopHead => 2
  | Exiting => 1
  | Exited | Crashed _ => 0
  end.

(** The records that [except Exception] writes for the runs of [h]. *)
Definition failures (h : list event) : list log_record :=
  omap (fun e => match e with
                 | EvRun _ t (inr _) =>
                     Some (LogException
                             "Exception occurred during callback %r (pvname=%r)"
                             (fst (fst t)) (kwargs_get "pvname" (snd t)))
                 | _ => None
                 end) h.

(** ** Example callables and states *)

(** A callback that appends its arguments to the shared log. *)
Definition cb_ok : callable :=
  Func (Some "cb") false (fun args _ w => (w ++ args, inl VNone)).

(** A callback that raises. *)
Definition cb_bad : callable :=
  Func (Some "bad") false (fun _ _ w => (w, inr (UserError "boom"))).

(** A callable without [__name__], such as a [functools.partial] object. *)
Definition cb_partial : callable :=
  Func None false (fun args _ w => (w ++ args, inl VNone)).


(** A client's function that carries a truthy [_wrapped_callback]
    attribute of its own. *)
Definition cb_marked : callable :=
  Func (Some "cb") true (fun args _ w => (w ++ args, inl VNone)).

(** A callback that calls [sys.exit()]. *)
Definition cb_exit : callable :=
  Func (Some "quit") false (fun _ _ w => (w, inr (SystemExiting "exit"))).

(** The steps that a worker at the head of its loop takes to bring the
    first task of its queue to the end of the inner [try]: the test of the
    loop, [queue.get], line 41 and, when the callable has a name, line 42. *)
Definition steps_of (t : Task) : nat :=
  match identity t with
  | Some _ => 4
  | None => 3
  end.


(** ** Definitions for the further properties *)

(** The tasks that a worker may still take once the stop event is set: one
    if it is inside [queue.get], none otherwise. *)
Definition budget (p : option phase) : nat :=
  match p with
  | Some Polling => 1
  | _ => 0
  end.

(** With the stop event set in [s], what each worker takes on the way to
    [s'] is within its budget. *)
Definition winds_down (s s' : state) : Prop :=
  _stop_event s = true ->
  _stop_event s' = true /\
  exists h, history s' = history s ++ h /\
            forall tid, (length (gets_of tid h) + budget (phase_of tid s')
                         <= budget (phase_of tid s))%nat.

(** The exception records of a log. *)
Definition exceptions (l : list log_record) : list log_record :=
  omap (fun r => match r with
                 | LogException _ _ _ => Some r
                 | LogDebug _ _ => None
                 end) l.

(** The records that the runs of [h] call for: one for each run that ended
    in an exception deriving from [Exception]. *)
Definition caught (h : list event) : list log_record :=
  omap (fun e => match e with
                 | EvRun _ t (inr ex) =>
                     if is_Exception ex
                     then Some (LogException
                                  "Exception occurred during callback %r (pvname=%r)"
                                  (fst (fst t)) (kwargs_get "pvname" (snd t)))
                     else None
                 | _ => None
                 end) h.

(** The logger of [s'] is the logger of [s] followed by records whose
    exception records are those of the runs in between. *)
Definition logs_runs (s s' : state) : Prop :=
  exists h l,
    history s' = history s ++ h /\
    logger s' = logger s ++ l /\
    exceptions l = caught h.

(** The lines that the diagnostics thread may still print once the stop
    event is set: one if the test of its loop has let it into the body,
    none otherwise. *)
Definition lines_left (s : state) : nat :=
  match _debug_monitor_thread s with
  | Some Reporting => 1
  | _ => 0
  end.

(** With the stop event set in [s], what is printed on the way to [s'] is
    within what the diagnostics thread may still print. *)
Definition falls_silent (s s' : state) : Prop :=
  _stop_event s = true ->
  _stop_event s' = true /\
  exists lines, stdout s' = stdout s ++ lines /\
                (length lines + lines_left s' <= lines_left s)%nat.

(** Where the end of the inner [try] leaves the worker, from the outcome of
    its body. *)
Definition resumes (r : value + exn) : phase :=
  match r with
  | inl _ => LoopHead
  | inr e => if is_Exception e then LoopHead else Crashed e
  end.

(** Every thread of the store has a negative timeout. *)
Definition hasty (s : state) : Prop :=
  forall tid w, thread_at tid s = Some w -> negative (t_timeout w) = true.

(** From a state whose threads all have a negative timeout, the threads of
    [s'] have one too, and nothing was taken from a queue on the way. *)
Definition starves (s s' : state) : Prop :=
  hasty s ->
  hasty s' /\
  exists h, history s' = history s ++ h /\ forall tid, gets_of tid h = [].



(** * Properties *)

(** ** The monad and the store *)

Ltac monad_unfold :=
  cbv [bind ret raise read modify record log update_thread observed handler
       try_except_Exception queue_put attach_context detach_context].

Lemma negative_false q : negative q = false <-> (0 <= q)%Q.
Proof. unfold negative. rewrite negb_false_iff. apply Qle_bool_iff. Qed.

Lemma thread_at_with_thread tid' tid f s :
  thread_at tid' (with_thread tid f s) =
  if decide (tid' = tid) then f <$> thread_at tid' s else thread_at tid' s.
Proof.
  unfold thread_at, with_thread. simpl. case_decide as Heq.
  - subst. by rewrite list_lookup_alter_eq.
  - by rewrite list_lookup_alter_ne.
Qed.

Lemma contents_with_queue q' q items s :
  contents q' (with_queue q items s) =
  if decide (q' = q) then items else contents q' s.
Proof.
  unfold contents, with_queue. simpl. case_decide as Heq.
  - subst. by rewrite lookup_total_insert_eq.
  - by rewrite lookup_total_insert_ne.
Qed.

Lemma call_Func n m body args kw s :
  call (Func n m body) args kw s =
  (snd (body args kw (world s)),
   set_world (fst (body args kw (world s)))
     (with_event (EvCall (Func n m body) args kw) s)).
Proof.
  unfold call. monad_unfold. simpl. by destruct (body args kw (world s)).
Qed.

Lemma call_wrapped q cb args kw s :
  call (wrapped q cb) args kw s =
  (inl VNone,
   with_event (EvPut q (cb, args, kw))
     (with_queue q (contents q s ++ [(cb, args, kw)])
        (with_event (EvCall (wrapped q cb) args kw) s))).
Proof. reflexivity. Qed.

Lemma store_identity_spec tid t s :
  store_identity tid t s =
  match identity t with
  | Some i =>
      (inl tt,
       with_event (EvBegin tid t)
         (with_thread tid (set_current_callback (Some i)) s))
  | None => (inr (AttributeError "__name__"), s)
  end.
Proof.
  destruct t as [[c args] kw]. unfold store_identity, identity. simpl.
  monad_unfold. by destruct (name_of c).
Qed.

(** ** The step function agrees with the closed form *)

Lemma tick_to_step tid w s s' :
  thread_at tid s = Some w -> tick_to tid w s s' -> step (Tick tid) s = Some s'.
Proof.
  intros Hw Ht. unfold step, run_step. rewrite Hw. simpl.
  destruct Ht as [Hp|Hp|Hp Hn|Hp Hn Hq|t rest Hp Hn Hq|t i Hp Hi|t Hp Hi|t Hp|Hp];
    rewrite Hp; cbn [mbind option_bind]; rewrite ?Hn.
  - by monad_unfold.
  - by monad_unfold.
  - by monad_unfold.
  - monad_unfold. by rewrite Hq.
  - monad_unfold. by rewrite Hq.
  - monad_unfold. by rewrite store_identity_spec, Hi.
  - monad_unfold. by rewrite store_identity_spec, Hi.
  - unfold finish. monad_unfold.
    destruct (call_task t s) as [[v|e] s1]; simpl; [done|].
    by destruct (is_Exception e).
  - by monad_unfold.
Qed.

Lemma tick_inv tid s s' :
  step (Tick tid) s = Some s' ->
  exists w, thread_at tid s = Some w /\ tick_to tid w s s'.
Proof.
  intros H.
  destruct (thread_at tid s) as [w|] eqn:Hw;
    [|by unfold step in H; rewrite Hw in H].
  exists w. split; [done|].
  assert (exists s'', tick_to tid w s s'') as [s'' Ht].
  { destruct (t_phase w) eqn:Hp.
    - eexists. by apply tick_to_Started.
    - eexists. by apply tick_to_LoopHead.
    - destruct (negative (t_timeout w)) eqn:Hn;
        [eexists; by apply tick_to_Polling_negative|].
      destruct (contents (t_queue w) s) eqn:Hq.
      + eexists. by apply tick_to_Polling_empty.
      + eexists. by eapply tick_to_Polling_task.
    - destruct (identity t) eqn:Hi.
      + eexists. by eapply tick_to_Running_named.
      + eexists. by eapply tick_to_Running_unnamed.
    - eexists. by eapply tick_to_Calling.
    - eexists. by apply tick_to_Exiting.
    - unfold step, run_step in H. rewrite Hw in H. simpl in H.
      by rewrite Hp in H.
    - unfold step, run_step in H. rewrite Hw in H. simpl in H.
      by rewrite Hp in H. }
  pose proof (tick_to_step _ _ _ _ Hw Ht) as H'. congruence.
Qed.

Lemma tick_over tid s : alive tid s = false -> step (Tick tid) s = None.
Proof.
  unfold alive, step, run_step, is_alive.
  destruct (thread_at tid s) as [w|]; simpl; [|done].
  by destruct (t_phase w).
Qed.

Lemma exec_app sched1 sched2 s :
  exec (sched1 ++ sched2) s = exec sched1 s ≫= exec sched2.
Proof.
  revert s. induction sched1 as [|a sched1 IH]; intros s; simpl; [done|].
  destruct (step a s); simpl; [apply IH|done].
Qed.

(** A relation that is reflexive, transitive and holds across every step
    holds across every schedule. *)
Lemma exec_preorder (R : state -> state -> Prop) :
  (forall s, R s s) ->
  (forall s1 s2 s3, R s1 s2 -> R s2 s3 -> R s1 s3) ->
  (forall a s s', step a s = Some s' -> R s s') ->
  forall sched s s', exec sched s = Some s' -> R s s'.
Proof.
  intros Hrefl Htrans Hstep sched.
  induction sched as [|a sched IH]; intros s s' H; simpl in H.
  - by simplify_eq.
  - destruct (step a s) as [s1|] eqn:Ha; simpl in H; [|done].
    eapply Htrans; [by eapply Hstep|by apply IH].
Qed.

(** ** How the elementary updates are observed *)

Lemma contents_with_log q r s : contents q (with_log r s) = contents q s.
Proof. reflexivity. Qed.
Lemma contents_with_event q e s : contents q (with_event e s) = contents q s.
Proof. reflexivity. Qed.
Lemma contents_with_thread q tid f s : contents q (with_thread tid f s) = contents q s.
Proof. reflexivity. Qed.
Lemma contents_set_world q w s : contents q (set_world w s) = contents q s.
Proof. reflexivity. Qed.
Lemma contents_set_stopper q x s : contents q (set_stopper x s) = contents q s.
Proof. reflexivity. Qed.
Lemma contents_set__threads q x s : contents q (set__threads x s) = contents q s.
Proof. reflexivity. Qed.
Lemma contents_set__stop_event q x s : contents q (set__stop_event x s) = contents q s.
Proof. reflexivity. Qed.
Lemma contents_set_stdout q x s : contents q (set_stdout x s) = contents q s.
Proof. reflexivity. Qed.
Lemma contents_set__debug_monitor_thread q x s :
  contents q (set__debug_monitor_thread x s) = contents q s.
Proof. reflexivity. Qed.

Lemma thread_at_with_log tid r s : thread_at tid (with_log r s) = thread_at tid s.
Proof. reflexivity. Qed.
Lemma thread_at_with_event tid e s : thread_at tid (with_event e s) = thread_at tid s.
Proof. reflexivity. Qed.
Lemma thread_at_with_queue tid q l s : thread_at tid (with_queue q l s) = thread_at tid s.
Proof. reflexivity. Qed.
Lemma thread_at_set_world tid w s : thread_at tid (set_world w s) = thread_at tid s.
Proof. reflexivity. Qed.
Lemma thread_at_set_stopper tid x s : thread_at tid (set_stopper x s) = thread_at tid s.
Proof. reflexivity. Qed.
Lemma thread_at_set__threads tid x s : thread_at tid (set__threads x s) = thread_at tid s.
Proof. reflexivity. Qed.
Lemma thread_at_set__stop_event tid x s :
  thread_at tid (set__stop_event x s) = thread_at tid s.
Proof. reflexivity. Qed.
Lemma thread_at_set_stdout tid x s : thread_at tid (set_stdout x s) = thread_at tid s.
Proof. reflexivity. Qed.
Lemma thread_at_set__debug_monitor_thread tid x s :
  thread_at tid (set__debug_monitor_thread x s) = thread_at tid s.
Proof. reflexivity. Qed.

Create Rewrite HintDb store.
#[global] Hint Rewrite
  contents_with_log contents_with_event contents_with_thread contents_set_world
  contents_set_stopper contents_set__threads contents_set__stop_event
  contents_set_stdout contents_set__debug_monitor_thread contents_with_queue
  thread_at_with_log thread_at_with_event thread_at_with_queue
  thread_at_set_world thread_at_set_stopper thread_at_set__threads
  thread_at_set__stop_event thread_at_set_stdout
  thread_at_set__debug_monitor_thread thread_at_with_thread : store.

Lemma quiet_gets_from q h : Forall quiet h -> gets_from q h = [].
Proof.
  induction 1 as [|e h He _ IH]; [done|].
  destruct e; try done; exact IH.
Qed.

Lemma quiet_gets_of tid h : Forall quiet h -> gets_of tid h = [].
Proof.
  induction 1 as [|e h He _ IH]; [done|].
  destruct e; try done; exact IH.
Qed.

Lemma quiet_runs_of tid h : Forall quiet h -> runs_of tid h = [].
Proof.
  induction 1 as [|e h He _ IH]; [done|].
  destruct e; try done; exact IH.
Qed.

Lemma quiet_begins_of tid h : Forall quiet h -> begins_of tid h = [].
Proof.
  induction 1 as [|e h He _ IH]; [done|].
  destruct e; try done; exact IH.
Qed.

Lemma quiet_track tid h cur : Forall quiet h -> track tid h cur = cur.
Proof. intros Hq. unfold track. by rewrite quiet_begins_of. Qed.

Lemma quiet_no_get tid q t h : Forall quiet h -> EvGet tid q t ∉ h.
Proof.
  intros Hq Hin. rewrite Forall_forall in Hq. by apply Hq in Hin.
Qed.

(** What a call does: it appends quiet events, puts what the events say, and
    leaves the dispatcher and the threads as they are. *)
Lemma call_effect c args kw s :
  exists h,
    history (snd (call c args kw s)) = history s ++ h /\
    Forall quiet h /\
    (forall q, contents q (snd (call c args kw s)) = contents q s ++ puts_on q h) /\
    thread_store (snd (call c args kw s)) = thread_store s /\
    _stop_event (snd (call c args kw s)) = _stop_event s /\
    _threads (snd (call c args kw s)) = _threads s /\
    stopper (snd (call c args kw s)) = stopper s /\
    logger (snd (call c args kw s)) = logger s.
Proof.
  destruct c as [n m body|q cb].
  - rewrite call_Func. exists [EvCall (Func n m body) args kw].
    simpl. split_and!; try done.
    + by repeat constructor.
    + intros q. autorewrite with store. by rewrite app_nil_r.
  - rewrite call_wrapped.
    exists [EvCall (wrapped q cb) args kw; EvPut q (cb, args, kw)].
    simpl. split_and!; try done.
    + by rewrite <- app_assoc.
    + by repeat constructor.
    + intros q'. autorewrite with store. unfold puts_on. simpl.
      repeat case_decide; simplify_eq; try done. by rewrite app_nil_r.
Qed.

Lemma call_task_effect t s :
  exists h,
    history (snd (call_task t s)) = history s ++ h /\
    Forall quiet h /\
    (forall q, contents q (snd (call_task t s)) = contents q s ++ puts_on q h) /\
    thread_store (snd (call_task t s)) = thread_store s /\
    _stop_event (snd (call_task t s)) = _stop_event s /\
    _threads (snd (call_task t s)) = _threads s /\
    stopper (snd (call_task t s)) = stopper s /\
    logger (snd (call_task t s)) = logger s.
Proof. destruct t as [[c args] kw]. apply call_effect. Qed.

Lemma call_task_thread tid t s :
  thread_at tid (snd (call_task t s)) = thread_at tid s.
Proof.
  destruct (call_task_effect t s) as (h & _ & _ & _ & Hts & _).
  unfold thread_at. by rewrite Hts.
Qed.

(** What the end of the inner [try] does to the state. *)
Lemma finish_effect tid t r s :
  exists p,
    (p = LoopHead /\ (forall e, r = inr e -> is_Exception e = true) \/
     exists e, r = inr e /\ is_Exception e = false /\ p = Crashed e) /\
    history (finish tid t r s) = history s ++ [EvRun tid t r] /\
    (forall q, contents q (finish tid t r s) = contents q s) /\
    (forall tid', thread_at tid' (finish tid t r s) =
                  thread_at tid' (with_thread tid (set_phase p) s)).
Proof.
  unfold finish. destruct r as [v|e]; [|destruct (is_Exception e) eqn:He].
  - exists LoopHead. split_and!; try done. left. by split.
  - exists LoopHead. split_and!; try done. left. split; [done|].
    intros e' ?. by simplify_eq.
  - exists (Crashed e). split_and!; try done. right. by exists e.
Qed.

(** ** [follows] is a preorder that every step respects *)

Lemma track_app tid h1 h2 cur :
  track tid (h1 ++ h2) cur = track tid h2 (track tid h1 cur).
Proof. unfold track, begins_of. by rewrite omap_app, foldl_app. Qed.

Lemma follows_refl s : follows s s.
Proof.
  exists []. simpl. split_and!; try done.
  - by rewrite app_nil_r.
  - intros q. by rewrite app_nil_r.
  - intros tid. by rewrite app_nil_r.
  - intros tid q t Hin. by apply elem_of_nil in Hin.
Qed.

Lemma follows_trans s1 s2 s3 : follows s1 s2 -> follows s2 s3 -> follows s1 s3.
Proof.
  intros (h1 & Hh1 & Hc1 & Hr1 & Hq1 & Hg1 & Hx1 & Ht1)
         (h2 & Hh2 & Hc2 & Hr2 & Hq2 & Hg2 & Hx2 & Ht2).
  exists (h1 ++ h2). split_and!.
  - by rewrite Hh2, Hh1, app_assoc.
  - intros q. unfold gets_from, puts_on in *. rewrite !omap_app.
    rewrite <- app_assoc, Hc2, !app_assoc. f_equal. apply Hc1.
  - intros tid. unfold runs_of, gets_of in *. rewrite !omap_app.
    rewrite <- app_assoc, Hr2, !app_assoc. f_equal. apply Hr1.
  - intros tid. by rewrite Hq2.
  - intros tid q t [Hin|Hin]%elem_of_app; [by eapply Hg1|].
    rewrite <- Hq1. by eapply Hg2.
  - intros tid Hquit. destruct (Hx1 tid Hquit) as [Hquit2 Hno1].
    destruct (Hx2 tid Hquit2) as [Hquit3 Hno2]. split; [done|].
    unfold gets_of in *. by rewrite omap_app, Hno1, Hno2.
  - intros tid. by rewrite Ht2, Ht1, track_app.
Qed.

(** A step that writes no event and leaves the queues alone. *)
Lemma follows_silent s s' :
  history s' = history s ->
  (forall q, contents q s' = contents q s) ->
  (forall tid, inflight tid s' = inflight tid s) ->
  (forall tid, queue_of tid s' = queue_of tid s) ->
  (forall tid, quitting tid s -> quitting tid s') ->
  (forall tid, current_of tid s' = current_of tid s) ->
  follows s s'.
Proof.
  intros Hh Hc Hi Hq Hx Ht. exists []. split_and!; simpl; try done.
  - by rewrite Hh, app_nil_r.
  - intros q. by rewrite Hc, app_nil_r.
  - intros tid. by rewrite Hi, app_nil_r.
  - intros tid q t Hin. by apply elem_of_nil in Hin.
  - intros tid Hquit. split; [by apply Hx|done].
Qed.

Ltac thread_obs Hw :=
  unfold inflight, quitting, phase_of, queue_of, current_of, alive, is_alive in *;
  autorewrite with store in *;
  repeat case_decide; simplify_eq;
  rewrite ?Hw in *; simpl in *.

(** The end of the inner [try], after a part of its body that wrote the
    quiet events [h], put what they say and left the threads alone. *)
Lemma follows_finish tid t r s0 s h w :
  thread_at tid s0 = Some w ->
  t_phase w = Running t \/ t_phase w = Calling t ->
  history s = history s0 ++ h -> Forall quiet h ->
  (forall q, contents q s = contents q s0 ++ puts_on q h) ->
  thread_store s = thread_store s0 ->
  follows s0 (finish tid t r s).
Proof.
  intros Hw Hp Hh Hqt Hc Hts.
  assert (Hth : forall tid', thread_at tid' s = thread_at tid' s0).
  { intros tid'. unfold thread_at. by rewrite Hts. }
  assert (Hin : inflight tid s0 = [t]).
  { unfold inflight, phase_of. rewrite Hw. simpl. by destruct Hp as [->| ->]. }
  assert (Hnq : ~ quitting tid s0).
  { unfold quitting, phase_of. rewrite Hw. simpl.
    destruct Hp as [->| ->]; by intros ?. }
  destruct (finish_effect tid t r s) as (p & Hp' & Hfh & Hfc & Hft).
  assert (Hidle : match p with Running _ | Calling _ => False | _ => True end).
  { by destruct Hp' as [[-> _]|(e & _ & _ & ->)]. }
  exists (h ++ [EvRun tid t r]). split_and!.
  - by rewrite Hfh, Hh, app_assoc.
  - intros q. rewrite Hfc, Hc. unfold gets_from, puts_on. rewrite !omap_app.
    fold (gets_from q h). rewrite quiet_gets_from by done. simpl.
    by rewrite app_nil_r.
  - intros tid'. unfold runs_of, gets_of. rewrite !omap_app.
    fold (runs_of tid' h). fold (gets_of tid' h).
    rewrite quiet_runs_of, quiet_gets_of by done. simpl. rewrite app_nil_r.
    unfold inflight, phase_of in *. rewrite Hft. autorewrite with store.
    rewrite Hth.
    repeat case_decide; simplify_eq; rewrite ?Hw in *; simpl in *; try done.
    rewrite Hin. by destruct p.
  - intros tid'. unfold queue_of. rewrite Hft. autorewrite with store.
    rewrite Hth. case_decide; [|done]. subst. by rewrite Hw.
  - intros tid' q t' [Hin'|Hin']%elem_of_app.
    + by apply quiet_no_get in Hin'.
    + by apply list_elem_of_singleton in Hin'.
  - intros tid' Hquit. unfold gets_of. rewrite omap_app.
    fold (gets_of tid' h). rewrite quiet_gets_of by done. simpl.
    split; [|done]. destruct (decide (tid' = tid)) as [->|Hne]; [by destruct Hnq|].
    revert Hquit. unfold quitting, phase_of. rewrite Hft.
    autorewrite with store. rewrite Hth. case_decide; [by destruct Hne|auto].
  - intros tid'. rewrite track_app, (quiet_track _ h) by done.
    unfold track, begins_of, current_of. simpl.
    rewrite Hft. autorewrite with store. rewrite Hth.
    case_decide; [|done]. subst. by rewrite Hw.
Qed.

Lemma follows_tick tid s s' : step (Tick tid) s = Some s' -> follows s s'.
Proof.
  intros (w & Hw & Ht)%tick_inv.
  destruct Ht as [Hp|Hp|Hp Hn|Hp Hn Hq|t rest Hp Hn Hq|t i Hp Hi|t Hp Hi|t Hp|Hp].
  - apply follows_silent; try done; intros tid'; try intros Hquit;
      thread_obs Hw; rewrite ?Hp in *; done.
  - apply follows_silent; try done; intros tid'; try intros Hquit;
      thread_obs Hw; rewrite ?Hp in *; try done.
    by destruct (_stop_event s).
  - apply follows_silent; try done; intros tid'; try intros Hquit;
      thread_obs Hw; rewrite ?Hp in *; done.
  - apply follows_silent; try done; intros tid'; try intros Hquit;
      thread_obs Hw; rewrite ?Hp in *; done.
  - exists [EvGet tid (t_queue w) t]. split_and!; try done.
    + intros q. autorewrite with store. unfold gets_from, puts_on. simpl.
      repeat case_decide; simplify_eq; simpl; rewrite ?app_nil_r; try done.
    + intros tid'. unfold runs_of, gets_of. simpl.
      thread_obs Hw; rewrite ?Hp; try done. by rewrite app_nil_r.
    + intros tid'. thread_obs Hw; done.
    + intros tid' q t' Hin. apply list_elem_of_singleton in Hin. simplify_eq.
      unfold queue_of. by rewrite Hw.
    + intros tid' Hquit. unfold gets_of. simpl.
      thread_obs Hw; rewrite ?Hp in *; done.
    + intros tid'. unfold track, begins_of. simpl. thread_obs Hw; done.
  - exists [EvBegin tid t]. split_and!; try done.
    + intros q. autorewrite with store. by rewrite app_nil_r.
    + intros tid'. unfold runs_of, gets_of. simpl. rewrite app_nil_r.
      thread_obs Hw; rewrite ?Hp; done.
    + intros tid'. thread_obs Hw; done.
    + intros tid' q t' Hin. by apply list_elem_of_singleton in Hin.
    + intros tid' Hquit. unfold gets_of. simpl.
      thread_obs Hw; rewrite ?Hp in *; done.
    + intros tid'. unfold track, begins_of. simpl.
      thread_obs Hw; rewrite ?Hi; done.
  - apply (follows_finish tid t _ s s [] w); try done; [by left| |].
    + by rewrite app_nil_r.
    + intros q. by rewrite app_nil_r.
  - destruct (call_task_effect t s) as (h & Hh & Hqt & Hc & Hts & _).
    apply (follows_finish tid t _ s _ h w); try done. by right.
  - apply follows_silent; try done; intros tid'; try intros Hquit;
      thread_obs Hw; rewrite ?Hp in *; done.
Qed.

Lemma monitor_pass_line s :
  stdout (snd (_debug_monitor_pass s)) = stdout s \/
  exists line, stdout (snd (_debug_monitor_pass s)) = stdout s ++ [line].
Proof.
  unfold _debug_monitor_pass. monad_unfold.
  destruct (filter _ _); simpl; [by left|right; by eexists].
Qed.

Lemma monitor_pass_effect s :
  snd (_debug_monitor_pass s) = s \/
  exists out, snd (_debug_monitor_pass s) = set_stdout out s.
Proof.
  unfold _debug_monitor_pass. monad_unfold.
  destruct (filter _ _); simpl; [by left|right; by eexists].
Qed.

Lemma step_cases a s s' :
  step a s = Some s' ->
  (exists tid, a = Tick tid) \/
  (exists c args kw, a = Invoke c args kw /\ s' = snd (call c args kw s)) \/
  (exists c args kw, a = ScheduleUtility c args kw /\
     s' = with_event (EvPut (_utility_queue s) (c, args, kw))
            (with_queue (_utility_queue s)
               (contents (_utility_queue s) s ++ [(c, args, kw)]) s)) \/
  (a = StopBegin /\ stopper s = None /\
     s' = set_stopper (Some (_threads s)) (set__stop_event true s)) \/
  (exists name tid rest, a = StopJoin /\ stopper s = Some ((name, tid) :: rest) /\
     alive tid s = false /\ s' = set_stopper (Some rest) s) \/
  (a = StopClear /\ stopper s = Some [] /\
     s' = set_stopper None (set__threads [] s)) \/
  (a = MonitorTick /\
     ((exists b, s' = set__debug_monitor_thread b s) \/
      (exists b out, s' = set__debug_monitor_thread b (set_stdout out s)))).
Proof.
  intros H. destruct a; simpl in H.
  - left. by eexists.
  - right; left. simplify_eq. by do 3 eexists.
  - right; right; left. simplify_eq. by do 3 eexists.
  - do 3 right; left. destruct (stopper s); by simplify_eq.
  - do 4 right; left. destruct (stopper s) as [[|[name tid] rest]|]; try done.
    destruct (alive tid s) eqn:Ha; simplify_eq. by do 3 eexists.
  - do 5 right; left. destruct (stopper s) as [[|]|]; by simplify_eq.
  - do 6 right. split; [done|].
    destruct (_debug_monitor_thread s) as [[| |]|]; simplify_eq.
    + left. by eexists.
    + destruct (monitor_pass_effect s) as [->|[out ->]].
      * left. by eexists.
      * right. by do 2 eexists.
Qed.

Ltac step_cases H :=
  apply step_cases in H as
    [(?tid & ->)
    |[(?c & ?args & ?kw & -> & ->)
    |[(?c & ?args & ?kw & -> & ->)
    |[(-> & ?Hstopper & ->)
    |[(?name & ?tid & ?rest & -> & ?Hstopper & ?Hdead & ->)
    |[(-> & ?Hstopper & ->)
    |(-> & [[?b ->]|(?b & ?out & ->)])]]]]]].

Lemma follows_step a s s' : step a s = Some s' -> follows s s'.
Proof.
  intros H. pose proof H as H'. step_cases H'.
  - by eapply follows_tick.
  - destruct (call_effect c args kw s) as (h & Hh & Hqt & Hc & Hts & _).
    assert (Hth : forall tid, thread_at tid (snd (call c args kw s)) = thread_at tid s).
    { intros tid. unfold thread_at. by rewrite Hts. }
    exists h. split_and!; try done.
    + intros q. by rewrite quiet_gets_from, Hc.
    + intros tid. rewrite quiet_runs_of, quiet_gets_of by done.
      unfold inflight, phase_of. by rewrite Hth, app_nil_r.
    + intros tid. unfold queue_of. by rewrite Hth.
    + intros tid q t Hin. by apply quiet_no_get in Hin.
    + intros tid Hquit. rewrite quiet_gets_of by done. split; [|done].
      revert Hquit. unfold quitting, phase_of. by rewrite Hth.
    + intros tid. rewrite quiet_track by done. unfold current_of. by rewrite Hth.
  - exists [EvPut (_utility_queue s) (c, args, kw)]. split_and!; try done.
    + intros q. autorewrite with store. unfold puts_on. simpl.
      repeat case_decide; simplify_eq; simpl; rewrite ?app_nil_r; done.
    + intros tid. simpl. by rewrite app_nil_r.
    + intros tid q t Hin. by apply list_elem_of_singleton in Hin.
  - by apply follows_silent.
  - by apply follows_silent.
  - by apply follows_silent.
  - by apply follows_silent.
  - by apply follows_silent.
Qed.

Lemma follows_exec sched s s' : exec sched s = Some s' -> follows s s'.
Proof.
  apply (exec_preorder follows);
    [apply follows_refl|apply follows_trans|apply follows_step].
Qed.

(** ** The constructor *)

Lemma str_inj i j : str i = str j -> i = j.
Proof.
  unfold str. intros H. apply Unsigned.to_uint_inj.
  assert (Some (Nat.to_uint i) = Some (Nat.to_uint j)) as Heq; [|congruence].
  by rewrite <- !NilEmpty.usu, H.
Qed.

Lemma util_names_NoDup n : NoDup (util_names n).
Proof.
  unfold util_names. apply NoDup_fmap_2; [|apply NoDup_seq].
  intros i j H. apply str_inj. by injection H.
Qed.

Lemma dict_get_None_app {V} k (d : list (string * V)) v :
  dict_get k d = None -> dict_set k v d = d ++ [(k, v)].
Proof.
  induction d as [|[k' v'] d IH]; simpl; [done|].
  destruct (String.eqb k' k); [done|]. intros H. by rewrite IH.
Qed.

Lemma dict_get_app {V} k (d1 d2 : list (string * V)) :
  dict_get k (d1 ++ d2) =
  match dict_get k d1 with Some v => Some v | None => dict_get k d2 end.
Proof.
  induction d1 as [|[k' v'] d1 IH]; simpl; [done|].
  by destruct (String.eqb k' k).
Qed.

Lemma start_utility_threads names : forall s,
  NoDup names ->
  (forall name, name ∈ names -> dict_get name (_threads s) = None) ->
  for_each names (fun name => _start_thread name (Some (_utility_queue s))) s =
  (inl tt,
   set__threads
     (_threads s ++ imap (fun i name => (name, length (thread_store s) + i)%nat) names)
     (set_thread_store
        (thread_store s ++
         map (fun name => mkThread name (context s) None (_utility_queue s)
                            (_timeout s) true Started) names) s)).
Proof.
  induction names as [|name names IH]; intros s Hnd Hfresh.
  - simpl. unfold ret. f_equal. destruct s; simpl. by rewrite !app_nil_r.
  - apply NoDup_cons in Hnd as [Hnotin Hnd]. simpl.
    unfold bind at 1.
    assert (_start_thread name (Some (_utility_queue s)) s =
            (inl tt,
             set__threads (_threads s ++ [(name, length (thread_store s))])
               (set_thread_store
                  (thread_store s ++
                   [mkThread name (context s) None (_utility_queue s)
                      (_timeout s) true Started]) s))) as ->.
    { unfold _start_thread, _CallbackThread_init. monad_unfold. simpl.
      rewrite dict_get_None_app; [done|]. apply Hfresh. by left. }
    change (_utility_queue s) with
      (_utility_queue (set__threads (_threads s ++ [(name, length (thread_store s))])
               (set_thread_store
                  (thread_store s ++
                   [mkThread name (context s) None (_utility_queue s)
                      (_timeout s) true Started]) s))) at 1.
    rewrite IH; [|done|].
    + f_equal. destruct s; simpl. unfold set__threads, set_thread_store. simpl.
      rewrite <- !app_assoc. simpl. rewrite length_app. simpl.
      f_equal. f_equal. rewrite Nat.add_0_r. f_equal.
      apply imap_ext. intros i x _. simpl. f_equal. lia.
    + intros name' Hin. simpl. rewrite dict_get_app.
      rewrite Hfresh by (by right). simpl.
      destruct (String.eqb_spec name name'); [by subst|done].
Qed.

Lemma util_name_fresh n name :
  name ∈ util_names n ->
  dict_get name [("metadata", 0%nat); ("monitor", 1%nat); ("get_put", 2%nat)] = None.
Proof.
  unfold util_names. intros Hin.
  apply list_elem_of_In, in_map_iff in Hin as (i & <- & _). reflexivity.
Qed.

Lemma EventDispatcher_constructed ctx tmo dbg n :
  EventDispatcher ctx tmo dbg n = constructed ctx tmo dbg n.
Proof.
  unfold EventDispatcher, __init__.
  set (s3 := {| _threads := [("metadata", 0%nat); ("monitor", 1%nat); ("get_put", 2%nat)];
     _timeout := tmo;
     _stop_event := false;
     context := ctx;
     _utility_threads := util_names n;
     _utility_queue := 0;
     _debug_monitor_thread := None;
     thread_store := named_threads ctx tmo;
     queue_store := <[3%nat := []]> (<[2%nat := []]> (<[1%nat := []]> {[ 0%nat := [] ]}));
     next_queue := 4;
     logger := [];
     stdout := [];
     world := [];
     stopper := None;
     history := [] |}).
  assert (forall k : M unit,
            (_start_thread "metadata" None ;;; _start_thread "monitor" None ;;;
             _start_thread "get_put" None ;;; k) (fresh_dispatcher ctx tmo n) = k s3) as ->.
  { intros k. reflexivity. }
  unfold bind at 1. unfold read at 1. unfold bind at 1. unfold read at 1.
  unfold bind at 1.
  rewrite (start_utility_threads (_utility_threads s3) s3).
  - by destruct dbg.
  - apply util_names_NoDup.
  - intros name Hin. simpl in *. by eapply util_name_fresh.
Qed.

Lemma dict_get_imap k names : forall i name,
  NoDup names -> names !! i = Some name ->
  dict_get name (imap (fun i name => (name, k + i)%nat) names) = Some (k + i)%nat.
Proof.
  revert k. induction names as [|x names IH]; intros k i name Hnd Hi; [done|].
  apply NoDup_cons in Hnd as [Hnotin Hnd]. rewrite imap_cons. simpl.
  destruct i as [|i]; simpl in Hi.
  - simplify_eq. by rewrite String.eqb_refl.
  - destruct (String.eqb_spec x name) as [->|_].
    + destruct Hnotin. by eapply list_elem_of_lookup_2.
    + rewrite (imap_ext _ (fun i name => (name, S k + i)%nat)).
      * rewrite (IH (S k) i name) by done. f_equal. lia.
      * intros j y _. simpl. f_equal. lia.
Qed.

Lemma dict_get_imap_inv k names : forall name tid,
  dict_get name (imap (fun i name => (name, k + i)%nat) names) = Some tid ->
  exists i, tid = (k + i)%nat /\ names !! i = Some name.
Proof.
  revert k. induction names as [|x names IH]; intros k name tid H; [done|].
  rewrite imap_cons in H. simpl in H.
  destruct (String.eqb_spec x name) as [->|_].
  - simplify_eq. exists 0%nat. by rewrite Nat.add_0_r.
  - rewrite (imap_ext _ (fun i name => (name, S k + i)%nat)) in H.
    + apply IH in H as (i & -> & Hi). exists (S i). split; [lia|done].
    + intros j y _. simpl. f_equal. lia.
Qed.

Lemma util_names_length n : length (util_names n) = Z.to_nat n.
Proof. unfold util_names, range. by rewrite length_map, length_seq. Qed.

Lemma util_names_lookup n i :
  (i < Z.to_nat n)%nat ->
  util_names n !! i = Some (String.append "util" (str i)).
Proof.
  intros Hi. unfold util_names, range.
  change (map ?f ?l) with (f <$> l).
  by rewrite list_lookup_fmap, lookup_seq_lt.
Qed.

Lemma constructed_thread_util ctx tmo dbg n i :
  (i < Z.to_nat n)%nat ->
  thread_at (3 + i) (constructed ctx tmo dbg n) =
  Some (util_thread ctx tmo (String.append "util" (str i))).
Proof.
  intros Hi. unfold thread_at. simpl.
  change (map ?f ?l) with (f <$> l).
  by rewrite list_lookup_fmap, util_names_lookup.
Qed.

Lemma constructed_thread_inv ctx tmo dbg n tid w :
  thread_at tid (constructed ctx tmo dbg n) = Some w ->
  (tid < 3 + Z.to_nat n)%nat /\
  t_phase w = Started /\ current_callback w = None /\
  (nth_error (named_threads ctx tmo) tid = Some w \/
   (3 <= tid)%nat /\ t_queue w = 0%nat).
Proof.
  unfold thread_at. simpl. intros H.
  destruct tid as [|[|[|k]]]; simpl in H; simplify_eq; simpl.
  1-3: split_and!; try done; try lia; by left.
  change (map ?f ?l) with (f <$> l) in H.
  rewrite list_lookup_fmap in H.
  destruct (util_names n !! k) as [name|] eqn:Hk; simplify_eq/=.
  apply lookup_lt_Some in Hk. rewrite util_names_length in Hk.
  split_and!; try done; try lia.
Qed.

(** ** What the steps leave alone *)

Lemma length_with_thread tid f s :
  length (thread_store (with_thread tid f s)) = length (thread_store s).
Proof. unfold with_thread. simpl. apply length_alter. Qed.

Lemma finish_frame tid t r s :
  _stop_event (finish tid t r s) = _stop_event s /\
  _threads (finish tid t r s) = _threads s /\
  stopper (finish tid t r s) = stopper s /\
  (forall tid', tid' <> tid ->
     thread_at tid' (finish tid t r s) = thread_at tid' s) /\
  length (thread_store (finish tid t r s)) = length (thread_store s).
Proof.
  unfold finish. destruct r as [v|e]; [|destruct (is_Exception e)];
    (split_and!; try done;
     [intros tid' Hne; autorewrite with store; by case_decide
     |by rewrite length_with_thread]).
Qed.

Lemma call_task_frame t s :
  _stop_event (snd (call_task t s)) = _stop_event s /\
  _threads (snd (call_task t s)) = _threads s /\
  stopper (snd (call_task t s)) = stopper s /\
  (forall tid', thread_at tid' (snd (call_task t s)) = thread_at tid' s) /\
  length (thread_store (snd (call_task t s))) = length (thread_store s).
Proof.
  destruct (call_task_effect t s) as (h & _ & _ & _ & Hts & Hs & Hd & Hst & _).
  split_and!; try done.
  - intros tid'. unfold thread_at. by rewrite Hts.
  - by rewrite Hts.
Qed.

Lemma tick_frame tid s s' :
  step (Tick tid) s = Some s' ->
  _stop_event s' = _stop_event s /\
  _threads s' = _threads s /\
  stopper s' = stopper s /\
  (forall tid', tid' <> tid -> thread_at tid' s' = thread_at tid' s) /\
  length (thread_store s') = length (thread_store s).
Proof.
  intros (w & Hw & Ht)%tick_inv.
  destruct Ht as [Hp|Hp|Hp Hn|Hp Hn Hq|t rest Hp Hn Hq|t i Hp Hi|t Hp Hi|t Hp|Hp].
  1-6, 9: split_and!; try done;
    try (intros tid' Hne; autorewrite with store; by repeat case_decide);
    try (by unfold with_thread, with_log, with_event, with_queue; simpl;
         rewrite ?length_alter).
  - apply finish_frame.
  - destruct (call_task_frame t s) as (H1 & H2 & H3 & H4 & H5).
    destruct (finish_frame tid t (fst (call_task t s)) (snd (call_task t s)))
      as (G1 & G2 & G3 & G4 & G5).
    split_and!; try congruence.
    intros tid' Hne. by rewrite G4, H4.
Qed.

Lemma step_frame a s s' :
  step a s = Some s' ->
  (a <> StopBegin -> _stop_event s' = _stop_event s) /\
  (a <> StopClear -> _threads s' = _threads s) /\
  (a <> StopBegin -> a <> StopJoin -> a <> StopClear -> stopper s' = stopper s) /\
  (forall tid, a <> Tick tid -> thread_at tid s' = thread_at tid s) /\
  length (thread_store s') = length (thread_store s).
Proof.
  intros H. pose proof H as H'. step_cases H'.
  - destruct (tick_frame _ _ _ H) as (H1 & H2 & H3 & H4 & H5).
    split_and!; auto; intros tid' Hne; apply H4; congruence.
  - destruct (call_effect c args kw s) as (h & _ & _ & _ & Hts & Hs & Hd & Hst & _).
    split_and!; auto; try (by rewrite Hts).
    intros tid _; unfold thread_at; by rewrite Hts.
  - by split_and!.
  - by split_and!.
  - by split_and!.
  - by split_and!.
  - by split_and!.
  - by split_and!.
Qed.

Lemma persists_refl s : persists s s.
Proof. by split_and!. Qed.

Lemma persists_trans s1 s2 s3 : persists s1 s2 -> persists s2 s3 -> persists s1 s3.
Proof.
  intros (F1 & D1 & L1) (F2 & D2 & L2). split_and!.
  - auto.
  - intros tid Hdead. rewrite <- (D1 tid Hdead). apply D2.
    unfold alive in *. by rewrite (D1 tid Hdead).
  - congruence.
Qed.

Lemma persists_step a s s' : step a s = Some s' -> persists s s'.
Proof.
  intros H. destruct (step_frame _ _ _ H) as (H1 & H2 & H3 & H4 & H5).
  split_and!; [|intros tid Hdead; apply H4|done].
  - destruct a; try (by rewrite H1).
    simpl in H. destruct (stopper s); by simplify_eq.
  - intros ->. by rewrite tick_over in H.
Qed.

Lemma persists_exec sched s s' : exec sched s = Some s' -> persists s s'.
Proof.
  apply (exec_preorder persists);
    [apply persists_refl|apply persists_trans|apply persists_step].
Qed.

Lemma dead_exec sched s s' tid :
  exec sched s = Some s' -> alive tid s = false -> alive tid s' = false.
Proof.
  intros (_ & D & _)%persists_exec Hdead. unfold alive in *. by rewrite D.
Qed.

(** ** The protocol of stop() *)

Lemma stopping_step ts a s s' :
  a <> StopBegin -> stopping ts s -> step a s = Some s' ->
  match a with StopClear => stopped ts s' | _ => stopping ts s' end.
Proof.
  intros Hne (joined & rest & Hst & Hts & Hsplit & Hflag & Hdead) H.
  destruct (persists_step _ _ _ H) as (Pf & Pd & _).
  assert (Hdead' : forall name tid, (name, tid) ∈ joined -> alive tid s' = false).
  { intros name tid Hin. unfold alive. rewrite Pd by eauto. by eapply Hdead. }
  destruct (step_frame _ _ _ H) as (F1 & F2 & F3 & _).
  destruct a; try done.
  1-3, 6: exists joined, rest; split_and!; auto;
          [rewrite F3 by done; done|rewrite F2 by done; done].
  - simpl in H. rewrite Hst in H. destruct rest as [|[name tid] rest]; [done|].
    destruct (alive tid s) eqn:Ha; simplify_eq.
    exists (joined ++ [(name, tid)]), rest. split_and!; try done.
    + by rewrite <- app_assoc.
    + intros name' tid' [Hin|Hin]%elem_of_app; [by eapply Hdead|].
      apply list_elem_of_singleton in Hin. by simplify_eq.
  - simpl in H. rewrite Hst in H. destruct rest; [|done].
    rewrite app_nil_r in Hsplit. subst joined. simplify_eq.
    by split_and!.
Qed.

Lemma stopped_step ts a s s' :
  a <> StopBegin -> stopped ts s -> step a s = Some s' -> stopped ts s'.
Proof.
  intros Hne (Hst & Hts & Hflag & Hdead) H.
  destruct (persists_step _ _ _ H) as (Pf & Pd & _).
  destruct (step_frame _ _ _ H) as (F1 & F2 & F3 & _).
  destruct a; try done.
  4, 5: simpl in H; by rewrite Hst in H.
  all: split_and!; auto;
    [rewrite F3 by done; done|rewrite F2 by done; done
    |intros name tid' Hin; unfold alive; rewrite Pd by eauto; by eapply Hdead].
Qed.

Lemma stop_exec ts sched : forall s s',
  StopBegin ∉ sched -> exec sched s = Some s' ->
  (stopping ts s -> stopping ts s' \/ stopped ts s') /\
  (stopped ts s -> stopped ts s').
Proof.
  induction sched as [|a sched IH]; intros s s' Hnb H; simpl in H.
  - simplify_eq. auto.
  - apply not_elem_of_cons in Hnb as [Hne Hnb].
    destruct (step a s) as [s1|] eqn:Ha; simpl in H; [|done].
    destruct (IH s1 s' Hnb H) as [IH1 IH2]. split.
    + intros Hs. pose proof (stopping_step ts a s s1 (not_eq_sym Hne) Hs Ha) as Hs1.
      destruct a; auto.
    + intros Hs. apply IH2. by eapply stopped_step.
Qed.

(** However the other threads are interleaved with a call of [stop()], when
    it returns the event is set, [_threads] is empty and the threads that it
    held are over. *)
Lemma stop_returns sched s s' :
  stopper s = None -> StopBegin ∉ sched ->
  exec (StopBegin :: sched ++ [StopClear]) s = Some s' ->
  stopped (_threads s) s'.
Proof.
  intros Hst Hnb H. cbn [exec] in H.
  destruct (step StopBegin s) as [sb|] eqn:Hb; [|done].
  cbn [mbind option_bind] in H. rewrite exec_app in H.
  destruct (exec sched sb) as [s1|] eqn:H1; [|done].
  cbn [mbind option_bind exec] in H.
  destruct (step StopClear s1) as [s2|] eqn:H2; [|done].
  cbn [mbind option_bind] in H. simplify_eq.
  simpl in Hb. rewrite Hst in Hb. simplify_eq.
  destruct (stop_exec (_threads s) sched _ _ Hnb H1) as [Hing _].
  destruct Hing as [Hing|Hed].
  - exists [], (_threads s). split_and!; try done.
    intros name tid Hin. by apply elem_of_nil in Hin.
  - by apply (stopping_step (_threads s) StopClear s1 s') in H2.
  - destruct Hed as (Hnone & _). simpl in H2. by rewrite Hnone in H2.
Qed.

(** ** stop() with no other thread moving *)

Lemma finish_phase tid t r s w :
  thread_at tid s = Some w ->
  exists w', thread_at tid (finish tid t r s) = Some w' /\
             t_queue w' = t_queue w /\
             t_timeout w' = t_timeout w /\
             current_callback w' = current_callback w /\
             (t_phase w' = LoopHead /\ (forall e, r = inr e -> is_Exception e = true) \/
              exists e, r = inr e /\ is_Exception e = false /\ t_phase w' = Crashed e).
Proof.
  intros Hw. unfold finish.
  destruct r as [v|e]; [|destruct (is_Exception e) eqn:He];
    autorewrite with store; rewrite decide_True by done; rewrite Hw; simpl;
    eexists; split_and!; try done.
  - left. by split.
  - left. split; [done|]. intros e' ?. by simplify_eq.
  - right. by exists e.
Qed.

Lemma tick_closer tid s w :
  thread_at tid s = Some w -> is_alive w = true -> _stop_event s = true ->
  exists s' w', step (Tick tid) s = Some s' /\ thread_at tid s' = Some w' /\
                (distance (t_phase w') < distance (t_phase w))%nat.
Proof.
  intros Hw Ha Hflag. unfold is_alive in Ha.
  destruct (t_phase w) eqn:Hp; try done.
  - eexists _, _. split; [by apply (tick_to_step _ w), tick_to_Started|].
    autorewrite with store. rewrite decide_True by done. rewrite Hw. simpl.
    split; [done|]. simpl. lia.
  - eexists _, _. split; [by apply (tick_to_step _ w), tick_to_LoopHead|].
    autorewrite with store. rewrite decide_True by done. rewrite Hw, Hflag. simpl.
    split; [done|]. simpl. lia.
  - destruct (negative (t_timeout w)) eqn:Hn;
      [|destruct (contents (t_queue w) s) as [|t' rest] eqn:Hq].
    + eexists _, _. split; [by apply (tick_to_step _ w), tick_to_Polling_negative|].
      autorewrite with store. rewrite decide_True by done. rewrite Hw. simpl.
      split; [done|]. simpl. lia.
    + eexists _, _. split; [by apply (tick_to_step _ w), tick_to_Polling_empty|].
      autorewrite with store. rewrite decide_True by done. rewrite Hw. simpl.
      split; [done|]. simpl. lia.
    + eexists _, _. split; [by eapply (tick_to_step _ w), tick_to_Polling_task|].
      autorewrite with store. rewrite decide_True by done. rewrite Hw. simpl.
      split; [done|]. simpl. lia.
  - destruct (identity t) as [i|] eqn:Hi.
    + eexists _, _. split; [by eapply (tick_to_step _ w), tick_to_Running_named|].
      autorewrite with store. rewrite !decide_True by done. rewrite Hw. simpl.
      split; [done|]. simpl. lia.
    + destruct (finish_phase tid t (inr (AttributeError "__name__")) _ _ Hw)
        as (w' & Hw' & _ & _ & _ & Hph).
      eexists _, w'. split; [by eapply (tick_to_step _ w), tick_to_Running_unnamed|].
      split; [done|].
      destruct Hph as [[-> _]|(e & _ & _ & ->)]; simpl; lia.
  - pose proof (call_task_thread tid t s) as Hw1. rewrite Hw in Hw1.
    destruct (finish_phase tid t (fst (call_task t s)) _ _ Hw1)
      as (w' & Hw' & _ & _ & _ & Hph).
    eexists _, w'. split; [by eapply (tick_to_step _ w), tick_to_Calling|].
    split; [done|].
    destruct Hph as [[-> _]|(e & _ & _ & ->)]; simpl; lia.
  - eexists _, _. split; [by apply (tick_to_step _ w), tick_to_Exiting|].
    autorewrite with store. rewrite !decide_True by done. rewrite Hw. simpl.
    split; [done|]. simpl. lia.
Qed.

Lemma join_total fuel : forall tid s,
  _stop_event s = true ->
  (forall w, thread_at tid s = Some w -> (distance (t_phase w) <= fuel)%nat) ->
  exists s', join fuel tid s = Some s'.
Proof.
  induction fuel as [|fuel IH]; intros tid s Hflag Hd.
  - simpl. unfold alive, is_alive.
    destruct (thread_at tid s) as [w|] eqn:Hw; [|by eexists].
    specialize (Hd w eq_refl). destruct (t_phase w); simpl in Hd; try lia; by eexists.
  - cbn [join]. destruct (alive tid s) eqn:Ha; [|by eexists].
    unfold alive in Ha. destruct (thread_at tid s) as [w|] eqn:Hw; [|done].
    destruct (tick_closer tid s w Hw Ha Hflag) as (s' & w' & Hs & Hw' & Hlt).
    rewrite Hs. cbn [mbind option_bind]. apply IH.
    + destruct (persists_step _ _ _ Hs) as (Pf & _). by apply Pf.
    + intros w'' Hw''. simplify_eq. specialize (Hd w eq_refl). lia.
Qed.

Lemma distance_bound p : (distance p <= 5)%nat.
Proof. destruct p; simpl; lia. Qed.

Lemma join_spec fuel : forall tid s s',
  join fuel tid s = Some s' ->
  alive tid s' = false /\
  exists k, exec (repeat (Tick tid) k) s = Some s'.
Proof.
  induction fuel as [|fuel IH]; intros tid s s' H; cbn [join] in H.
  - destruct (alive tid s) eqn:Ha; [done|]. simplify_eq.
    split; [done|]. by exists 0%nat.
  - destruct (alive tid s) eqn:Ha.
    + destruct (step (Tick tid) s) as [s1|] eqn:Hs; [|done].
      cbn [mbind option_bind] in H.
      destruct (IH _ _ _ H) as (Hdead & k & Hk). split; [done|].
      exists (S k). cbn [repeat exec]. rewrite Hs. by cbn [mbind option_bind].
    + simplify_eq. split; [done|]. by exists 0%nat.
Qed.

Lemma exec_ticks_frame tid k : forall s s',
  exec (repeat (Tick tid) k) s = Some s' ->
  _stop_event s' = _stop_event s /\ stopper s' = stopper s.
Proof.
  induction k as [|k IH]; intros s s' H; cbn [repeat exec] in H.
  - by simplify_eq.
  - destruct (step (Tick tid) s) as [s1|] eqn:Hs; [|done].
    cbn [mbind option_bind] in H.
    destruct (tick_frame _ _ _ Hs) as (F1 & _ & F3 & _).
    destruct (IH _ _ H) as [G1 G2]. split; congruence.
Qed.

Lemma join_all_spec items : forall s,
  stopper s = Some items -> _stop_event s = true ->
  exists s' sched,
    join_all items s = Some s' /\
    stopper s' = Some [] /\
    (StopBegin ∉ sched) /\ (StopClear ∉ sched) /\
    exec sched s = Some s'.
Proof.
  induction items as [|[name tid] items IH]; intros s Hst Hflag.
  - exists s, []. simpl. split_and!; try done; apply not_elem_of_nil.
  - cbn [join_all].
    destruct (join_total 5 tid s Hflag) as [s1 H1].
    { intros w _. apply distance_bound. }
    rewrite H1. cbn [mbind option_bind].
    destruct (join_spec _ _ _ _ H1) as (Hdead & k & Hk).
    destruct (exec_ticks_frame _ _ _ _ Hk) as [F1 F2].
    assert (step StopJoin s1 = Some (set_stopper (Some items) s1)) as H2.
    { simpl. rewrite F2, Hst. by rewrite Hdead. }
    rewrite H2. cbn [mbind option_bind].
    destruct (IH (set_stopper (Some items) s1)) as (s' & sched & Hj & Hs' & Hnb & Hnc & He).
    { done. }
    { simpl. congruence. }
    exists s', (repeat (Tick tid) k ++ StopJoin :: sched). split_and!; try done.
    + intros [Hin|Hin]%elem_of_app.
      * apply list_elem_of_In, repeat_spec in Hin. done.
      * apply elem_of_cons in Hin as [?|?]; done.
    + intros [Hin|Hin]%elem_of_app.
      * apply list_elem_of_In, repeat_spec in Hin. done.
      * apply elem_of_cons in Hin as [?|?]; done.
    + rewrite exec_app, Hk. cbn [mbind option_bind exec]. rewrite H2.
      by cbn [mbind option_bind].
Qed.

(** [stop] returns, and it is one of the interleavings of [stop_returns]. *)
Lemma stop_total s :
  stopper s = None ->
  exists s' sched,
    stop s = Some s' /\
    (StopBegin ∉ sched) /\
    exec (StopBegin :: sched ++ [StopClear]) s = Some s'.
Proof.
  intros Hst. unfold stop.
  assert (step StopBegin s =
          Some (set_stopper (Some (_threads s)) (set__stop_event true s))) as Hb.
  { simpl. by rewrite Hst. }
  rewrite Hb. cbn [mbind option_bind].
  destruct (join_all_spec (_threads s)
              (set_stopper (Some (_threads s)) (set__stop_event true s)))
    as (s1 & sched & Hj & Hs1 & Hnb & _ & He); [done|done|].
  rewrite Hj. cbn [mbind option_bind].
  assert (step StopClear s1 = Some (set_stopper None (set__threads [] s1))) as Hc.
  { simpl. by rewrite Hs1. }
  exists (set_stopper None (set__threads [] s1)), sched.
  split_and!; try done.
  cbn [exec]. rewrite Hb. cbn [mbind option_bind].
  rewrite exec_app, He. cbn [mbind option_bind exec]. rewrite Hc.
  by cbn [mbind option_bind].
Qed.

(** ** A worker drains its queue *)

Lemma quiet_failures h : Forall quiet h -> failures h = [].
Proof.
  induction 1 as [|e h He _ IH]; [done|].
  destruct e; try done; exact IH.
Qed.

Lemma call_task_benign t s e :
  benign (fst (fst t)) -> fst (call_task t s) = inr e -> is_Exception e = true.
Proof.
  destruct t as [[c args] kw]. intros Hb H. simpl in Hb. unfold call_task in H.
  destruct c as [n' m body|q cb].
  - rewrite call_Func in H. cbn [fst] in H. exact (Hb _ _ _ _ H).
  - by rewrite call_wrapped in H.
Qed.

(** The end of an inner [try] whose outcome [except Exception] does not let
    through. *)
Lemma finish_caught tid t r s w :
  thread_at tid s = Some w ->
  (forall e, r = inr e -> is_Exception e = true) ->
  thread_at tid (finish tid t r s) = Some (set_phase LoopHead w) /\
  history (finish tid t r s) = history s ++ [EvRun tid t r] /\
  logger (finish tid t r s) = logger s ++ failures [EvRun tid t r] /\
  (forall q, contents q (finish tid t r s) = contents q s) /\
  _stop_event (finish tid t r s) = _stop_event s /\
  world (finish tid t r s) = world s /\
  (forall tid', tid' <> tid ->
     thread_at tid' (finish tid t r s) = thread_at tid' s).
Proof.
  intros Hw Hr. unfold finish.
  destruct r as [v|e]; [|rewrite (Hr e eq_refl)]; split_and!;
    try (intros tid' Hne; autorewrite with store; by case_decide);
    try (autorewrite with store; rewrite decide_True by done; by rewrite Hw);
    try done; simpl; by rewrite ?app_nil_r.
Qed.

(** The steps of a worker at the head of its loop, with a timeout that is
    not negative, take the first task of its queue through the inner [try],
    whatever the task does short of leaving [run]. *)
Lemma run_one tid s w t rest :
  thread_at tid s = Some w -> t_phase w = LoopHead -> _stop_event s = false ->
  negative (t_timeout w) = false ->
  contents (t_queue w) s = t :: rest -> benign (fst (fst t)) ->
  exists s' w' h,
    exec (repeat (Tick tid) (steps_of t)) s = Some s' /\
    thread_at tid s' = Some w' /\ t_phase w' = LoopHead /\
    t_queue w' = t_queue w /\ t_timeout w' = t_timeout w /\
    _stop_event s' = false /\
    history s' = history s ++ h /\
    runs_of tid h = [t] /\
    logger s' = logger s ++ failures h /\
    (forall q, contents q s' =
               (if decide (q = t_queue w) then rest else contents q s) ++ puts_on q h) /\
    (forall tid', tid' <> tid -> thread_at tid' s' = thread_at tid' s).
Proof.
  intros Hw Hp Hflag Hn Hq Hb.
  set (s1 := with_thread tid (set_phase Polling) s).
  assert (H1 : step (Tick tid) s = Some s1).
  { apply (tick_to_step _ w); [done|]. subst s1.
    replace Polling with (if _stop_event s then Exiting else Polling)
      by (by rewrite Hflag).
    by apply tick_to_LoopHead. }
  assert (Hw1 : thread_at tid s1 = Some (set_phase Polling w)).
  { subst s1. autorewrite with store. rewrite decide_True by done. by rewrite Hw. }
  set (s2 := with_thread tid (set_phase (Running t))
               (with_event (EvGet tid (t_queue w) t)
                  (with_queue (t_queue w) rest s1))).
  assert (H2 : step (Tick tid) s1 = Some s2).
  { apply (tick_to_step _ (set_phase Polling w)); [done|].
    exact (tick_to_Polling_task tid (set_phase Polling w) s1 t rest eq_refl Hn Hq). }
  set (w2 := set_phase (Running t) (set_phase Polling w)).
  assert (Hw2 : thread_at tid s2 = Some w2).
  { subst s2. autorewrite with store. rewrite decide_True by done. by rewrite Hw1. }
  unfold steps_of. destruct (identity t) as [i|] eqn:Hi.
  - set (s3 := with_thread tid (set_phase (Calling t))
                 (with_event (EvBegin tid t)
                    (with_thread tid (set_current_callback (Some i)) s2))).
    assert (H3 : step (Tick tid) s2 = Some s3).
    { apply (tick_to_step _ w2); [done|]. by apply tick_to_Running_named. }
    set (w3 := set_phase (Calling t) (set_current_callback (Some i) w2)).
    assert (Hw3 : thread_at tid s3 = Some w3).
    { subst s3. autorewrite with store. rewrite !decide_True by done.
      by rewrite Hw2. }
    set (r := fst (call_task t s3)). set (s4 := snd (call_task t s3)).
    assert (H4 : step (Tick tid) s3 = Some (finish tid t r s4)).
    { apply (tick_to_step _ w3); [done|]. by apply tick_to_Calling. }
    destruct (call_task_effect t s3) as (h & Hh & Hqt & Hc & Hts & Hs & _ & _ & Hl).
    fold s4 in Hh, Hc, Hts, Hs, Hl.
    assert (Hw4 : thread_at tid s4 = Some w3).
    { unfold thread_at. rewrite Hts. exact Hw3. }
    destruct (finish_caught tid t r s4 w3 Hw4) as (F1 & F2 & F3 & F4 & F5 & _ & F7).
    { intros e He. by eapply call_task_benign. }
    exists (finish tid t r s4), (set_phase LoopHead w3),
           (EvGet tid (t_queue w) t :: EvBegin tid t :: h ++ [EvRun tid t r]).
    split_and!; try done.
    + cbn [repeat exec]. rewrite H1. cbn [mbind option_bind]. rewrite H2.
      cbn [mbind option_bind]. rewrite H3. cbn [mbind option_bind].
      by rewrite H4.
    + by rewrite F5, Hs.
    + rewrite F2, Hh. simpl. by rewrite <- !app_assoc.
    + unfold runs_of. simpl. rewrite omap_app. fold (runs_of tid h).
      rewrite quiet_runs_of by done. simpl. by rewrite decide_True.
    + rewrite F3, Hl. unfold failures at 2. simpl. rewrite omap_app.
      fold (failures h). by rewrite quiet_failures.
    + intros q. rewrite F4, Hc. subst s3 s2 s1. autorewrite with store.
      unfold puts_on. simpl. rewrite omap_app. simpl. by rewrite app_nil_r.
    + intros tid' Hne. rewrite F7 by done. unfold thread_at. rewrite Hts.
      fold (thread_at tid' s3). subst s3 s2 s1. autorewrite with store.
      by repeat case_decide.
  - assert (H3 : step (Tick tid) s2 =
                 Some (finish tid t (inr (AttributeError "__name__")) s2)).
    { apply (tick_to_step _ w2); [done|]. by apply tick_to_Running_unnamed. }
    destruct (finish_caught tid t (inr (AttributeError "__name__")) s2 w2 Hw2)
      as (F1 & F2 & F3 & F4 & F5 & _ & F7).
    { intros e He. by simplify_eq. }
    exists (finish tid t (inr (AttributeError "__name__")) s2),
           (set_phase LoopHead w2),
           [EvGet tid (t_queue w) t; EvRun tid t (inr (AttributeError "__name__"))].
    split_and!; try done.
    + cbn [repeat exec]. rewrite H1. cbn [mbind option_bind]. rewrite H2.
      cbn [mbind option_bind]. by rewrite H3.
    + rewrite F2. subst s2 s1. simpl. by rewrite <- app_assoc.
    + unfold runs_of. simpl. by rewrite decide_True.
    + intros q. rewrite F4. subst s2 s1. autorewrite with store.
      by rewrite app_nil_r.
    + intros tid' Hne. rewrite F7 by done. subst s2 s1. autorewrite with store.
      by repeat case_decide.
Qed.



(** ** wrap_callback *)

Lemma constructed_bound ctx tmo dbg n : bound (constructed ctx tmo dbg n).
Proof.
  intros name tid H. unfold constructed in H. cbn [_threads] in H.
  rewrite dict_get_app in H. cbn [dict_get] in H.
  destruct (String.eqb "metadata" name); [by simplify_eq|].
  destruct (String.eqb "monitor" name); [by simplify_eq|].
  destruct (String.eqb "get_put" name); [by simplify_eq|].
  apply dict_get_imap_inv in H as (i & -> & Hi).
  apply lookup_lt_Some in Hi. rewrite util_names_length in Hi.
  by rewrite constructed_thread_util.
Qed.

Lemma bound_step a s s' : step a s = Some s' -> bound s -> bound s'.
Proof.
  intros H Hb name tid Hget.
  destruct (step_frame _ _ _ H) as (_ & F2 & _ & _ & F5).
  assert (is_Some (thread_at tid s)) as Hs.
  { destruct a; try (apply Hb with name; rewrite <- F2 by done; done).
    simpl in H. destruct (stopper s) as [[|]|]; by simplify_eq. }
  unfold thread_at in *. apply lookup_lt_is_Some. apply lookup_lt_is_Some in Hs.
  by rewrite F5.
Qed.

Lemma bound_exec sched : forall s s', exec sched s = Some s' -> bound s -> bound s'.
Proof.
  induction sched as [|a sched IH]; intros s s' H Hb; cbn [exec] in H.
  - by simplify_eq.
  - destruct (step a s) as [s1|] eqn:Ha; [|done]. cbn [mbind option_bind] in H.
    eapply IH; [done|]. by eapply bound_step.
Qed.

(** C9: wrapping the null callback returns it unchanged, for every category
    name, registered or not: no closure is made, the category is not
    checked (no exception), the state is what it was. *)
Theorem wrap_callback_None event_type s :
  wrap_callback event_type None s = (inl None, s).
Proof. reflexivity. Qed.

(** C5, as the code has it: the category check is the [assert] of line 155,
    behind the early return of lines 152-153 and against the current
    [_threads].  A callback that is already wrapped is returned as it is,
    whatever the name; one that is not is refused with [AssertionError]
    exactly when the name is not a key of [_threads], and wrapped for the
    queue of that thread otherwise.  In no case is the state touched. *)
Theorem wrap_callback_category_check s event_type cb :
  bound s ->
  (is_wrapped cb = true ->
   wrap_callback event_type (Some cb) s = (inl (Some cb), s)) /\
  (is_wrapped cb = false -> dict_get event_type (_threads s) = None ->
   wrap_callback event_type (Some cb) s = (inr AssertionError, s)) /\
  (is_wrapped cb = false ->
   forall tid, dict_get event_type (_threads s) = Some tid ->
     exists w, thread_at tid s = Some w /\
               wrap_callback event_type (Some cb) s =
               (inl (Some (wrapped (t_queue w) cb)), s)).
Proof.
  intros Hb. unfold wrap_callback. split_and!.
  - by intros ->.
  - intros -> Hget. monad_unfold. by rewrite Hget.
  - intros -> tid Hget. destruct (Hb _ _ Hget) as [w Hw]. exists w.
    split; [done|]. monad_unfold. by rewrite Hget, Hw.
Qed.

Lemma wrap_callback_category_check_witness :
  wrap_callback "monitor" (Some cb_ok) default_dispatcher =
  (inl (Some (wrapped 2 cb_ok)), default_dispatcher).
Proof.
  destruct (wrap_callback_category_check default_dispatcher "monitor" cb_ok)
    as (_ & _ & H).
  - unfold default_dispatcher. rewrite EventDispatcher_constructed.
    apply constructed_bound.
  - assert (dict_get "monitor" (_threads default_dispatcher) = Some 1%nat)
      as Hget by (by vm_compute).
    destruct (H eq_refl 1%nat Hget) as (w & Hw & Hwrap).
    rewrite Hwrap. replace (t_queue w) with 2%nat; [reflexivity|].
    vm_compute in Hw. injection Hw as <-. reflexivity.
Defined.

(** C5 as stated fails: for a name that is no category, wrapping a callable
    that is already wrapped raises nothing; and after [stop()] a name that
    was registered by the constructor is refused. *)
Lemma wrap_callback_category_check_counterexample :
  dict_get "nope" (_threads default_dispatcher) = None /\
  fst (wrap_callback "nope" (Some (wrapped 2 cb_ok)) default_dispatcher) =
  inl (Some (wrapped 2 cb_ok)) /\
  dict_get "monitor" (_threads default_dispatcher) = Some 1%nat /\
  exists s, stop default_dispatcher = Some s /\
            fst (wrap_callback "monitor" (Some cb_ok) s) = inr AssertionError.
Proof.
  split_and!; [by vm_compute..|].
  eexists. split; by vm_compute.
Qed.

(** C6, as the code has it: for a valid category, wrapping yields a
    callable on which wrapping is the identity, and the state is not
    touched.  When the callback does not carry the mark, the result is the
    closure over the category's queue and over the callback itself; when it
    carries the mark, whoever set it, the result is the callback itself.
    Whenever the result is a closure of [wrap_callback], over a queue [q]
    and a callback [c], each call of it puts exactly one task, [c] with the
    arguments of the call, on [q], touches no other queue, does not run [c]
    and returns [None]. *)
Theorem wrap_callback_idempotent s event_type tid w cb :
  dict_get event_type (_threads s) = Some tid -> thread_at tid s = Some w ->
  exists wc,
    wrap_callback event_type (Some cb) s = (inl (Some wc), s) /\
    wrap_callback event_type (Some wc) s = (inl (Some wc), s) /\
    (is_wrapped cb = false -> wc = wrapped (t_queue w) cb) /\
    (is_wrapped cb = true -> wc = cb) /\
    (forall q c, wc = wrapped q c ->
     forall args kw s1,
       exists s2,
         call wc args kw s1 = (inl VNone, s2) /\
         history s2 = history s1 ++ [EvCall wc args kw; EvPut q (c, args, kw)] /\
         (forall q', contents q' s2 =
                     if decide (q' = q)
                     then contents q' s1 ++ [(c, args, kw)]
                     else contents q' s1) /\
         world s2 = world s1).
Proof.
  intros Hget Hw.
  assert (Hcall : forall wc q c, wc = wrapped q c ->
     forall args kw s1,
       exists s2,
         call wc args kw s1 = (inl VNone, s2) /\
         history s2 = history s1 ++ [EvCall wc args kw; EvPut q (c, args, kw)] /\
         (forall q', contents q' s2 =
                     if decide (q' = q)
                     then contents q' s1 ++ [(c, args, kw)]
                     else contents q' s1) /\
         world s2 = world s1).
  { intros wc q c -> args kw s1. eexists. rewrite call_wrapped.
    split_and!; try done.
    - simpl. by rewrite <- app_assoc.
    - intros q'. autorewrite with store. by case_decide; subst. }
  unfold wrap_callback. destruct (is_wrapped cb) eqn:Hm.
  - exists cb. rewrite Hm. split_and!; try done. apply Hcall.
  - exists (wrapped (t_queue w) cb). monad_unfold. rewrite Hget, Hw. simpl.
    split_and!; try done. apply Hcall.
Qed.

Lemma wrap_callback_idempotent_witness :
  exists wc,
    wrap_callback "monitor" (Some cb_ok) default_dispatcher =
    (inl (Some wc), default_dispatcher) /\
    wrap_callback "monitor" (Some wc) default_dispatcher =
    (inl (Some wc), default_dispatcher).
Proof.
  destruct (wrap_callback_idempotent default_dispatcher "monitor" 1
              (mkThread "monitor" VNone None 2 (1 # 10) true Started) cb_ok)
    as (wc & H1 & H2 & _); [by vm_compute..|].
  exists wc. split; assumption.
Defined.

(** C6 as stated fails: a client's function that carries a truthy
    [_wrapped_callback] of its own is taken for a wrapper.  For a valid
    category it is returned as it is, and a call of the result runs the
    function in the caller and puts no task on any queue. *)
Lemma wrap_callback_idempotent_counterexample :
  dict_get "monitor" (_threads default_dispatcher) = Some 1%nat /\
  wrap_callback "monitor" (Some cb_marked) default_dispatcher =
    (inl (Some cb_marked), default_dispatcher) /\
  exists s,
    step (Invoke cb_marked [VInt 1] []) default_dispatcher = Some s /\
    world s = [VInt 1] /\
    history s = [EvCall cb_marked [VInt 1] []] /\
    (forall q, puts_on q (history s) = []) /\
    contents 2 s = [].
Proof.
  split; [vm_compute; reflexivity|]. split; [vm_compute; reflexivity|].
  eexists. split; [vm_compute; reflexivity|].
  split; [reflexivity|]. split; [reflexivity|]. split; [|vm_compute; reflexivity].
  intros q. reflexivity.
Qed.

(** ** A task that raises *)





(** C10: a dequeued task whose callable has no [__name__].  Reading the name
    raises [AttributeError] inside the [try]: the history gains the end of
    the [try] with that exception and no call, the shared environment and
    the queues are as before, [current_callback] keeps its value, the logger
    gains the record of [except Exception], and the worker is back at the
    head of its loop, from where (its timeout is not negative, or it could
    not have taken this task) it runs the next task of its queue. *)
Theorem unnamed_callable_is_dropped tid s w c args kw :
  thread_at tid s = Some w -> t_phase w = Running (c, args, kw) ->
  name_of c = None ->
  exists s1,
    step (Tick tid) s = Some s1 /\
    history s1 = history s ++
      [EvRun tid (c, args, kw) (inr (AttributeError "__name__"))] /\
    calls (drop (length (history s)) (history s1)) = [] /\
    world s1 = world s /\
    (forall q, contents q s1 = contents q s) /\
    current_of tid s1 = current_of tid s /\
    logger s1 = logger s ++
      [LogException "Exception occurred during callback %r (pvname=%r)"
         c (kwargs_get "pvname" kw)] /\
    phase_of tid s1 = Some LoopHead /\
    (forall t rest,
       _stop_event s = false -> (0 <= t_timeout w)%Q ->
       contents (t_queue w) s = t :: rest ->
       benign (fst (fst t)) ->
       exists s2 h,
         exec (repeat (Tick tid) (steps_of t)) s1 = Some s2 /\
         history s2 = history s1 ++ h /\
         runs_of tid h = [t]).
Proof.
  intros Hw Hp Hn.
  assert (Hi : identity (c, args, kw) = None).
  { unfold identity. simpl. by rewrite Hn. }
  pose proof (tick_to_step tid w s _ Hw (tick_to_Running_unnamed tid w s _ Hp Hi))
    as Hstep.
  unfold finish in Hstep. cbn [is_Exception] in Hstep.
  match type of Hstep with _ = Some ?x => set (s1 := x) in * end.
  exists s1. split; [exact Hstep|].
  assert (Hw1 : thread_at tid s1 = Some (set_phase LoopHead w)).
  { subst s1. autorewrite with store. rewrite decide_True by done. by rewrite Hw. }
  split_and!; try done.
  - simpl. by rewrite drop_app_length.
  - unfold current_of. by rewrite Hw1, Hw.
  - unfold phase_of. by rewrite Hw1.
  - intros t rest Hflag Htmo Hq Hb. apply negative_false in Htmo.
    destruct (run_one tid _ _ t rest Hw1 eq_refl Hflag Htmo Hq Hb)
      as (s2 & w2 & h & He & _ & _ & _ & _ & _ & Hh & Hr & _).
    by exists s2, h.
Qed.

Lemma unnamed_callable_is_dropped_witness :
  exists s1,
    exec [Invoke (wrapped 2 cb_partial) [VInt 3] [];
          Tick 1; Tick 1; Tick 1; Tick 1] default_dispatcher = Some s1 /\
    world s1 = [] /\ phase_of 1 s1 = Some LoopHead.
Proof.
  set (s := default default_dispatcher
              (exec [Invoke (wrapped 2 cb_partial) [VInt 3] [];
                     Tick 1; Tick 1; Tick 1] default_dispatcher)).
  destruct (unnamed_callable_is_dropped 1 s
              (mkThread "monitor" VNone None 2 (1 # 10) true
                 (Running (cb_partial, [VInt 3], [])))
              cb_partial [VInt 3] [])
    as (s1 & Hs1 & _ & _ & Hworld & _ & _ & _ & Hphase & _).
  - by vm_compute.
  - reflexivity.
  - reflexivity.
  - exists s1. split; [|split; [|exact Hphase]].
    + rewrite <- Hs1. by vm_compute.
    + rewrite Hworld. by vm_compute.
Defined.

(** ** current_callback *)

Lemma track_is_Some tid h cur : is_Some cur -> is_Some (track tid h cur).
Proof.
  unfold track. generalize (begins_of tid h). intros l. revert cur.
  induction l as [|t l IH]; intros cur Hc; simpl; [done|].
  apply IH. by destruct (identity t).
Qed.

Lemma calls_call_task t s :
  calls (drop (length (history s)) (history (snd (call_task t s)))) = [fst (fst t)].
Proof.
  destruct t as [[c args] kw]. unfold call_task.
  destruct c as [n m body|q cb].
  - rewrite call_Func. simpl. by rewrite drop_app_length.
  - rewrite call_wrapped. simpl. by rewrite <- app_assoc, drop_app_length.
Qed.

Lemma coherent_step a s s' : step a s = Some s' -> coherent s -> coherent s'.
Proof.
  intros H Hc tid t Hph.
  destruct (step_frame _ _ _ H) as (_ & _ & _ & F4 & _).
  assert (Hother : a <> Tick tid ->
                   current_of tid s' = identity t /\ is_Some (identity t)).
  { intros Hne. unfold phase_of, current_of in *. rewrite F4 in * by done.
    by apply Hc. }
  destruct a as [tid0| | | | | |]; try (by apply Hother).
  destruct (decide (tid0 = tid)) as [->|Hne]; [|apply Hother; congruence].
  clear Hother. apply tick_inv in H as (w & Hw & Ht).
    destruct Ht as [Hp|Hp|Hp Hn|Hp Hn Hq|t' rest Hp Hn Hq|t' i Hp Hi|t' Hp Hi|t' Hp|Hp].
  1-5, 9: exfalso; revert Hph; unfold phase_of; autorewrite with store;
      rewrite ?decide_True by done; rewrite Hw; simpl; try done;
      by destruct (_stop_event s).
  - revert Hph. unfold phase_of, current_of. autorewrite with store.
      rewrite !decide_True by done. rewrite Hw. simpl. intros ?. simplify_eq.
    by rewrite Hi.
  - exfalso. destruct (finish_phase tid t' (inr (AttributeError "__name__")) _ _ Hw)
      as (w' & Hw' & _ & _ & _ & Hph').
    unfold phase_of in Hph. rewrite Hw' in Hph. simpl in Hph.
    destruct Hph' as [[? _]|(e & _ & _ & ?)]; congruence.
  - exfalso. pose proof (call_task_thread tid t' s) as Hw1. rewrite Hw in Hw1.
    destruct (finish_phase tid t' (fst (call_task t' s)) _ _ Hw1)
      as (w' & Hw' & _ & _ & _ & Hph').
    unfold phase_of in Hph. rewrite Hw' in Hph. simpl in Hph.
    destruct Hph' as [[? _]|(e & _ & _ & ?)]; congruence.
Qed.

Lemma coherent_exec sched : forall s s',
  exec sched s = Some s' -> coherent s -> coherent s'.
Proof.
  induction sched as [|a sched IH]; intros s s' H Hc; cbn [exec] in H.
  - by simplify_eq.
  - destruct (step a s) as [s1|] eqn:Ha; [|done]. cbn [mbind option_bind] in H.
    eapply IH; [done|]. by eapply coherent_step.
Qed.

Lemma constructed_coherent ctx tmo dbg n : coherent (constructed ctx tmo dbg n).
Proof.
  intros tid t Hph. unfold phase_of in Hph.
  destruct (thread_at tid (constructed ctx tmo dbg n)) as [w|] eqn:Hw; [|done].
  apply constructed_thread_inv in Hw as (_ & Hp & _). simpl in Hph. congruence.
Qed.

(** C8, as the code has it: [current_callback] is [None] when the thread is
    constructed.  The first action of the inner [try] of a task whose
    callable has a name sets it to that name and [kwargs.get('pvname')],
    before the callable is called: the history has gained the store alone
    and the shared environment is untouched; the thread's next action is
    the call, and [current_callback] is the same after it.  So whenever a
    thread of a dispatcher stands before or inside the call of a task, its
    [current_callback] is the identity of that task.  Across any schedule it
    is determined by the tasks that the thread has begun, each overwriting
    it ([track]); and no action resets it: once it holds an identity it
    holds one in every later state, whether the thread is running a task or
    not. *)
Theorem current_callback_is_last_started :
  (forall ctx tmo dbg n tid w,
     thread_at tid (EventDispatcher ctx tmo dbg n) = Some w ->
     current_callback w = None) /\
  (forall tid s w t i,
     thread_at tid s = Some w -> t_phase w = Running t -> identity t = Some i ->
     exists s',
       step (Tick tid) s = Some s' /\
       current_of tid s' = Some i /\
       phase_of tid s' = Some (Calling t) /\
       history s' = history s ++ [EvBegin tid t] /\
       world s' = world s /\
       exists s'',
         step (Tick tid) s' = Some s'' /\
         calls (drop (length (history s')) (history s'')) = [fst (fst t)] /\
         current_of tid s'' = Some i) /\
  (forall ctx tmo dbg n sched s tid t,
     exec sched (EventDispatcher ctx tmo dbg n) = Some s ->
     phase_of tid s = Some (Calling t) ->
     is_Some (identity t) /\ current_of tid s = identity t) /\
  (forall sched s s',
     exec sched s = Some s' ->
     exists h, history s' = history s ++ h /\
               forall tid, current_of tid s' = track tid h (current_of tid s)) /\
  (forall sched s s' tid,
     exec sched s = Some s' ->
     is_Some (current_of tid s) -> is_Some (current_of tid s')).
Proof.
  split_and!.
  - intros ctx tmo dbg n tid w. rewrite EventDispatcher_constructed.
    intros Hw. by apply constructed_thread_inv in Hw as (_ & _ & Hc & _).
  - intros tid s w t i Hw Hp Hi.
    pose proof (tick_to_step tid w s _ Hw (tick_to_Running_named tid w s _ _ Hp Hi))
      as Hstep.
    match type of Hstep with _ = Some ?x => set (s1 := x) in * end.
    set (w1 := set_phase (Calling t) (set_current_callback (Some i) w)).
    assert (Hw1 : thread_at tid s1 = Some w1).
    { subst s1. autorewrite with store. rewrite !decide_True by done.
      by rewrite Hw. }
    exists s1. split_and!; try done.
    + unfold current_of. by rewrite Hw1.
    + unfold phase_of. by rewrite Hw1.
    + pose proof (tick_to_step tid w1 s1 _ Hw1 (tick_to_Calling tid w1 s1 t eq_refl))
        as Hstep2.
      eexists. split; [exact Hstep2|].
      pose proof (call_task_thread tid t s1) as Hw2. rewrite Hw1 in Hw2.
      destruct (finish_phase tid t (fst (call_task t s1)) _ _ Hw2)
        as (w' & Hw' & _ & _ & Hc & _).
      destruct (finish_effect tid t (fst (call_task t s1)) (snd (call_task t s1)))
        as (p & _ & Hfh & _).
      split.
      * pose proof (calls_call_task t s1) as Hcalls.
        destruct (call_task_effect t s1) as (h & Hh & _).
        rewrite Hh, drop_app_length in Hcalls.
        rewrite Hfh, Hh, <- app_assoc, drop_app_length.
        unfold calls in *. rewrite omap_app, Hcalls. done.
      * unfold current_of. rewrite Hw'. simpl. by rewrite Hc.
  - intros ctx tmo dbg n sched s tid t He Hph.
    rewrite EventDispatcher_constructed in He.
    destruct (coherent_exec _ _ _ He (constructed_coherent ctx tmo dbg n) tid t Hph)
      as [Hcur Hsome].
    by split.
  - intros sched s s' (h & Hh & _ & _ & _ & _ & _ & Ht)%follows_exec.
    by exists h.
  - intros sched s s' tid (h & Hh & _ & _ & _ & _ & _ & Ht)%follows_exec Hs.
    rewrite Ht. by apply track_is_Some.
Qed.

Lemma current_callback_is_last_started_witness :
  exists s',
    exec [Invoke (wrapped 2 cb_ok) [VInt 2] [("pvname", VStr "pv")];
          Tick 1; Tick 1; Tick 1; Tick 1] default_dispatcher = Some s' /\
    phase_of 1 s' = Some (Calling (cb_ok, [VInt 2], [("pvname", VStr "pv")])) /\
    world s' = [] /\
    is_Some (current_of 1 s').
Proof.
  set (s := default default_dispatcher
              (exec [Invoke (wrapped 2 cb_ok) [VInt 2] [("pvname", VStr "pv")];
                     Tick 1; Tick 1; Tick 1] default_dispatcher)).
  destruct current_callback_is_last_started as (_ & Hset & _ & _ & Hkeep).
  destruct (Hset 1%nat s
              (mkThread "monitor" VNone None 2 (1 # 10) true
                 (Running (cb_ok, [VInt 2], [("pvname", VStr "pv")])))
              (cb_ok, [VInt 2], [("pvname", VStr "pv")]) ("cb", VStr "pv"))
    as (s' & Hs' & Hc & Hph & _ & Hworld & _);
    [by vm_compute|reflexivity|reflexivity|].
  exists s'. split_and!.
  - rewrite <- Hs'. by vm_compute.
  - exact Hph.
  - rewrite Hworld. by vm_compute.
  - apply (Hkeep [] s' s' 1%nat eq_refl). by rewrite Hc.
Defined.

(** C8 as stated fails: after the worker "monitor" has run its only task it
    is at the head of its loop, holds no task and has an empty queue, and
    [current_callback] is still the identity of that task; the diagnostics
    of a worker that is between two tasks show the task that is over. *)
Lemma current_callback_is_last_started_counterexample :
  exists s',
    exec [Invoke (wrapped 2 cb_ok) [VInt 2] [("pvname", VStr "pv")];
          Tick 1; Tick 1; Tick 1; Tick 1; Tick 1] default_dispatcher = Some s' /\
    phase_of 1 s' = Some LoopHead /\
    inflight 1 s' = [] /\
    contents 2 s' = [] /\
    world s' = [VInt 2] /\
    current_of 1 s' = Some ("cb", VStr "pv").
Proof. eexists. split_and!; by vm_compute. Qed.

(** ** Construction *)

Lemma constructed_private ctx tmo dbg n tid :
  (tid < 3)%nat -> private (S tid) tid (constructed ctx tmo dbg n).
Proof.
  intros Hlt. split.
  - unfold queue_of, thread_at. simpl.
    destruct tid as [|[|[|k]]]; try done. lia.
  - intros tid' H. unfold queue_of in H.
    destruct (thread_at tid' (constructed ctx tmo dbg n)) as [w|] eqn:Hw; [|done].
    simpl in H. apply constructed_thread_inv in Hw as (_ & _ & _ & [Hn|[_ Hq]]).
    + destruct tid' as [|[|[|k]]]; simpl in Hn; simplify_eq; simpl in H;
        simplify_eq; try done.
      by destruct k.
    + congruence.
Qed.

Lemma keys_imap k (names : list string) :
  map fst (imap (fun i name => (name, k + i)%nat) names) = names.
Proof.
  revert k. induction names as [|x names IH]; intros k; [done|].
  rewrite imap_cons. simpl. f_equal.
  rewrite (imap_ext _ (fun i name => (name, S k + i)%nat)); [apply IH|].
  intros i y _. simpl. f_equal. lia.
Qed.

Lemma constructed_thread_named ctx tmo dbg n tid w :
  thread_at tid (constructed ctx tmo dbg n) = Some w ->
  (t_name w, tid) ∈ _threads (constructed ctx tmo dbg n) /\ t_phase w = Started.
Proof.
  intros Hw. pose proof Hw as Hw'.
  apply constructed_thread_inv in Hw as (Hlt & Hp & _ & _).
  split; [|done].
  unfold thread_at in Hw'. cbn [thread_store constructed _threads] in *.
  apply elem_of_app.
  destruct tid as [|[|[|k]]]; simpl in Hw'; simplify_eq; simpl.
  - left. by left.
  - left. right. by left.
  - left. do 2 right. by left.
  - right. change (map ?f ?l) with (f <$> l) in Hw'.
    rewrite list_lookup_fmap in Hw'.
    destruct (util_names n !! k) as [name|] eqn:Hk; simplify_eq/=.
    apply list_elem_of_lookup. exists k. rewrite list_lookup_imap, Hk. done.
Qed.

(** C7, as the code has it: the constructor takes no list of categories.
    For every pool size [n] it binds, in this order, the three names
    "metadata", "monitor" and "get_put" and the [n] names "util0",
    "util1", ... to one thread each; all of them are started; each of the
    three named threads is the only reader of a queue of its own, the
    utility threads all read the one utility queue; the store holds no other
    thread, every queue is empty and the stop event is not set. *)
Theorem constructor_starts_fixed_categories ctx tmo dbg (n : Z) :
  let s := EventDispatcher ctx tmo dbg n in
  map fst (_threads s) = ["metadata"; "monitor"; "get_put"] ++ util_names n /\
  length (util_names n) = Z.to_nat n /\
  (forall i, (i < Z.to_nat n)%nat ->
     util_names n !! i = Some (String.append "util" (str i))) /\
  NoDup (map fst (_threads s)) /\
  length (thread_store s) = (3 + Z.to_nat n)%nat /\
  (forall tid name,
     ["metadata"; "monitor"; "get_put"] !! tid = Some name ->
     dict_get name (_threads s) = Some tid /\
     private (S tid) tid s /\ S tid <> _utility_queue s) /\
  (forall i, (i < Z.to_nat n)%nat ->
     dict_get (String.append "util" (str i)) (_threads s) = Some (3 + i)%nat /\
     queue_of (3 + i) s = Some (_utility_queue s)) /\
  (forall tid w, thread_at tid s = Some w ->
     t_phase w = Started /\ is_alive w = true /\
     exists name, (name, tid) ∈ _threads s /\ t_name w = name) /\
  (forall q, contents q s = []) /\
  _stop_event s = false.
Proof.
  intros s. subst s. rewrite EventDispatcher_constructed.
  assert (Hfst : map fst (imap (fun i name => (name, 3 + i)%nat) (util_names n)) =
                 util_names n).
  { apply keys_imap. }
  split_and!.
  - cbn [_threads constructed]. rewrite map_app, Hfst. done.
  - apply util_names_length.
  - apply util_names_lookup.
  - cbn [_threads constructed]. rewrite map_app, Hfst. cbn [map fst app].
    pose proof (util_names_NoDup n) as Hnd.
    assert (forall name, name ∈ ["metadata"; "monitor"; "get_put"] ->
                         name ∉ util_names n) as Hdisj.
    { intros name Hin Hu. apply util_name_fresh in Hu.
      apply elem_of_cons in Hin as [->|Hin]; [done|].
      apply elem_of_cons in Hin as [->|Hin]; [done|].
      apply list_elem_of_singleton in Hin as ->. done. }
    repeat (apply NoDup_cons; split;
            [intros Hin; repeat (apply elem_of_cons in Hin as [Hin|Hin];
                                 [done|]);
             revert Hin; apply Hdisj; set_solver|]).
    done.
  - cbn [thread_store constructed]. rewrite length_app, length_map, util_names_length.
    done.
  - intros tid name Hname.
    assert (tid < 3)%nat as Hlt by (by apply lookup_lt_Some in Hname).
    split_and!.
    + cbn [_threads constructed]. rewrite dict_get_app.
      destruct tid as [|[|[|k]]]; simpl in Hname; simplify_eq; done.
    + by apply constructed_private.
    + done.
  - intros i Hi. split.
    + cbn [_threads constructed]. rewrite dict_get_app.
      rewrite (util_name_fresh n).
      * apply dict_get_imap; [apply util_names_NoDup|by apply util_names_lookup].
      * eapply list_elem_of_lookup_2. by apply util_names_lookup.
    + unfold queue_of. by rewrite constructed_thread_util.
  - intros tid w Hw.
    destruct (constructed_thread_named ctx tmo dbg n tid w Hw) as [Hin Hp].
    split_and!; [done|by unfold is_alive; rewrite Hp|].
    by exists (t_name w).
  - intros q. unfold contents. cbn [queue_store constructed].
    destruct (decide (q = 3%nat)) as [->|]; [by rewrite lookup_total_insert_eq|].
    rewrite lookup_total_insert_ne by done.
    destruct (decide (q = 2%nat)) as [->|]; [by rewrite lookup_total_insert_eq|].
    rewrite lookup_total_insert_ne by done.
    destruct (decide (q = 1%nat)) as [->|]; [by rewrite lookup_total_insert_eq|].
    rewrite lookup_total_insert_ne by done.
    destruct (decide (q = 0%nat)) as [->|]; [by rewrite lookup_total_singleton_eq|].
    by rewrite lookup_total_singleton_ne.
  - done.
Qed.

(** C7 as stated fails: with a pool of two the categories are the three
    fixed names and the two pool names; a caller's categories "a" and "b"
    are not among them, whatever the arguments of the constructor. *)
Lemma constructor_starts_fixed_categories_counterexample :
  map fst (_threads (EventDispatcher VNone (1 # 10) false 2)) =
    ["metadata"; "monitor"; "get_put"; "util0"; "util1"] /\
  dict_get "a" (_threads (EventDispatcher VNone (1 # 10) false 2)) = None /\
  dict_get "b" (_threads (EventDispatcher VNone (1 # 10) false 2)) = None /\
  (forall ctx tmo dbg,
     dict_get "a" (_threads (EventDispatcher ctx tmo dbg 2)) = None /\
     dict_get "b" (_threads (EventDispatcher ctx tmo dbg 2)) = None).
Proof.
  split_and!; [by vm_compute..|].
  intros ctx tmo dbg. rewrite EventDispatcher_constructed.
  split; reflexivity.
Qed.

(** ** Order *)

Lemma gets_from_private q tid s h :
  private q tid s ->
  (forall tid' q' t, EvGet tid' q' t ∈ h -> queue_of tid' s = Some q') ->
  gets_from q h = gets_of tid h.
Proof.
  intros [Hown Honly]. induction h as [|e h IH]; intros Hg; [done|].
  assert (gets_from q h = gets_of tid h) as IH'.
  { apply IH. intros ????. eapply Hg. by right. }
  destruct e as [|tid' q' t| | |]; try exact IH'.
  assert (queue_of tid' s = Some q') as Hq by (eapply Hg; by left).
  unfold gets_from, gets_of in *. simpl.
  destruct (decide (q' = q)) as [->|Hne], (decide (tid' = tid)) as [->|Hne'].
  - by f_equal.
  - by destruct Hne', (Honly tid' Hq).
  - congruence.
  - done.
Qed.

(** C2: a queue [q] that one worker [tid] alone reads.  Across any schedule,
    the tasks whose [try] the worker has ended, then the task it holds, then
    the tasks still in the queue are, in this order, what was there before
    followed by the tasks put on [q] in the order of the puts.  So when
    nothing was pending, the tasks that the worker has run are an initial
    segment of the tasks that were put, in the order of the puts. *)
Theorem fifo_within_a_queue sched s s' q tid :
  private q tid s -> exec sched s = Some s' ->
  exists h,
    history s' = history s ++ h /\
    runs_of tid h ++ inflight tid s' ++ contents q s' =
    inflight tid s ++ contents q s ++ puts_on q h /\
    (inflight tid s = [] -> contents q s = [] ->
     runs_of tid h `prefix_of` puts_on q h).
Proof.
  intros Hpriv (h & Hh & Hc & Hr & _ & Hg & _)%follows_exec.
  exists h. split; [done|].
  assert (runs_of tid h ++ inflight tid s' ++ contents q s' =
          inflight tid s ++ contents q s ++ puts_on q h) as Heq.
  { rewrite app_assoc, Hr, <- app_assoc.
    rewrite <- (gets_from_private q tid s h Hpriv Hg), Hc. done. }
  split; [done|]. intros Hi Hq. rewrite Hi, Hq in Heq. simpl in Heq.
  rewrite <- Heq. by eexists.
Qed.

Lemma fifo_within_a_queue_witness :
  exists s',
    exec [Invoke (wrapped 2 cb_ok) [VInt 0] [];
          Invoke (wrapped 2 cb_ok) [VInt 1] [];
          Tick 1; Tick 1; Tick 1;
          Invoke (wrapped 2 cb_ok) [VInt 2] [];
          Tick 1; Tick 1; Tick 1; Tick 1; Tick 1; Tick 1; Tick 1; Tick 1; Tick 1;
          Tick 1]
         default_dispatcher = Some s' /\
    runs_of 1 (history s') `prefix_of` puts_on 2 (history s') /\
    world s' = [VInt 0; VInt 1; VInt 2].
Proof.
  set (sched := [Invoke (wrapped 2 cb_ok) [VInt 0] [];
                 Invoke (wrapped 2 cb_ok) [VInt 1] [];
                 Tick 1; Tick 1; Tick 1;
                 Invoke (wrapped 2 cb_ok) [VInt 2] [];
                 Tick 1; Tick 1; Tick 1; Tick 1; Tick 1; Tick 1; Tick 1; Tick 1;
                 Tick 1; Tick 1]).
  destruct (exec sched default_dispatcher) as [s'|] eqn:He;
    [|by vm_compute in He].
  exists s'. split; [reflexivity|].
  destruct (fifo_within_a_queue sched default_dispatcher s' 2 1)
    as (h & Hh & _ & Hpre); [|exact He|].
  - unfold default_dispatcher. rewrite EventDispatcher_constructed.
    apply constructed_private. lia.
  - split.
    + replace (history default_dispatcher) with (@nil event) in Hh
        by (by vm_compute).
      rewrite Hh. apply Hpre; by vm_compute.
    + vm_compute in He. injection He as <-. reflexivity.
Defined.

(** ** Shutdown *)

Lemma stop_again s :
  stopper s = None -> _threads s = [] -> _stop_event s = true ->
  stop s = Some s.
Proof.
  intros Hst Hts Hflag. unfold stop. simpl. rewrite Hst, Hts. simpl.
  destruct s; simpl in *. by subst.
Qed.

(** C3: [stop()], called while no call of it is in progress, returns; the
    stop event is then set, every thread that [_threads] held is over (each
    join has returned) and [_threads] is empty.  Called again in that state
    it returns the state it was given. *)
Theorem stop_is_idempotent s :
  stopper s = None ->
  exists s',
    stop s = Some s' /\
    _stop_event s' = true /\
    (forall name tid, (name, tid) ∈ _threads s -> alive tid s' = false) /\
    _threads s' = [] /\
    stop s' = Some s'.
Proof.
  intros Hst.
  destruct (stop_total s Hst) as (s' & sched & Hstop & Hnb & Hexec).
  destruct (stop_returns sched s s' Hst Hnb Hexec) as (Hnone & Hts & Hflag & Hdead).
  exists s'. split_and!; try done. by apply stop_again.
Qed.

Lemma stop_is_idempotent_witness :
  exists s',
    stop default_dispatcher = Some s' /\
    EventDispatcher_is_alive default_dispatcher = true /\
    alive 1 s' = false /\
    stop s' = Some s'.
Proof.
  destruct (stop_is_idempotent default_dispatcher) as (s' & Hs & _ & Hdead & _ & Hagain).
  - by vm_compute.
  - exists s'. split; [exact Hs|]. split; [by vm_compute|].
    split; [|exact Hagain]. apply (Hdead "monitor").
    unfold default_dispatcher. rewrite EventDispatcher_constructed.
    cbn [_threads constructed]. apply elem_of_app. left.
    apply elem_of_cons. right. apply elem_of_cons. by left.
Defined.

Lemma get_in_gets_of tid q t h : EvGet tid q t ∈ h -> gets_of tid h <> [].
Proof.
  induction h as [|e h IH]; intros Hin; [by apply elem_of_nil in Hin|].
  apply elem_of_cons in Hin as [<-|Hin].
  - unfold gets_of. simpl. by rewrite decide_True.
  - specialize (IH Hin). unfold gets_of in *. simpl.
    destruct e as [|tid' q' t'| | |]; try done. by case_decide.
Qed.

Lemma dead_quitting tid s :
  is_Some (thread_at tid s) -> alive tid s = false -> quitting tid s.
Proof.
  intros [w Hw]. unfold alive, quitting, phase_of, is_alive. rewrite Hw. simpl.
  by destruct (t_phase w).
Qed.

(** C4: a call of [stop()] that begins in a state whose live threads are all
    in [_threads], with the other threads interleaved in any way, clients
    that put tasks included.  When it has returned, no thread of the store
    is alive; and in whatever follows, clients putting more tasks included,
    no thread is alive and the history gains no [queue.get].  More
    generally, a worker that has found the stop event set (or is over)
    stays so and takes no task from any queue in whatever follows. *)
Theorem no_dequeue_after_stop :
  (forall s sched1 s1 sched2 s2,
     stopper s = None -> managed s -> StopBegin ∉ sched1 ->
     exec (StopBegin :: sched1 ++ [StopClear]) s = Some s1 ->
     exec sched2 s1 = Some s2 ->
     (forall tid, alive tid s1 = false) /\
     (forall tid, alive tid s2 = false) /\
     exists h, history s2 = history s1 ++ h /\
               forall tid q t, EvGet tid q t ∉ h) /\
  (forall s tid sched s',
     quitting tid s -> exec sched s = Some s' ->
     quitting tid s' /\
     exists h, history s' = history s ++ h /\
               forall q t, EvGet tid q t ∉ h).
Proof.
  assert (Hquit : forall s tid sched s',
     quitting tid s -> exec sched s = Some s' ->
     quitting tid s' /\
     exists h, history s' = history s ++ h /\
               forall q t, EvGet tid q t ∉ h).
  { intros s tid sched s' Hq (h & Hh & _ & _ & _ & _ & Hx & _)%follows_exec.
    destruct (Hx tid Hq) as [Hq' Hno]. split; [done|].
    exists h. split; [done|]. intros q t Hin. by apply get_in_gets_of in Hin. }
  split; [|exact Hquit].
  intros s sched1 s1 sched2 s2 Hst Hman Hnb H1 H2.
  destruct (stop_returns sched1 s s1 Hst Hnb H1) as (_ & _ & _ & Hdead).
  assert (Hall : forall tid, alive tid s1 = false).
  { intros tid. destruct (alive tid s1) eqn:Ha1; [|done].
    destruct (alive tid s) eqn:Ha.
    - destruct (Hman tid Ha) as [name Hin]. rewrite (Hdead name tid Hin) in Ha1.
      done.
    - by rewrite (dead_exec _ _ _ tid H1 Ha) in Ha1. }
  split_and!; [done|by intros tid; eapply dead_exec|].
  pose proof H2 as (h & Hh & _ & _ & _ & Hg & Hx & _)%follows_exec.
  exists h. split; [done|]. intros tid q t Hin.
  pose proof (Hg _ _ _ Hin) as Hq.
  assert (quitting tid s1) as Hquitting.
  { apply dead_quitting; [|done]. unfold queue_of in Hq.
    by destruct (thread_at tid s1). }
  destruct (Hx tid Hquitting) as [_ Hno]. by apply get_in_gets_of in Hin.
Qed.

Lemma constructed_managed ctx tmo dbg n : managed (constructed ctx tmo dbg n).
Proof.
  intros tid Ha. unfold alive in Ha.
  destruct (thread_at tid (constructed ctx tmo dbg n)) as [w|] eqn:Hw; [|done].
  destruct (constructed_thread_named ctx tmo dbg n tid w Hw) as [Hin _].
  by exists (t_name w).
Qed.

Lemma no_dequeue_after_stop_witness :
  exists s1 s2,
    exec [StopBegin; ScheduleUtility cb_ok [VInt 7] [];
          Tick 0; Tick 0; Tick 0; StopJoin;
          Tick 1; Tick 1; Tick 1; StopJoin;
          Tick 2; Tick 2; Tick 2; StopJoin;
          Tick 3; Tick 3; Tick 3; StopJoin;
          StopClear] (EventDispatcher VNone (1 # 10) false 1) = Some s1 /\
    exec [Invoke (wrapped 2 cb_ok) [VInt 8] []] s1 = Some s2 /\
    (forall tid, alive tid s2 = false) /\
    qsize 0 s2 = 1%nat /\ qsize 2 s2 = 1%nat.
Proof.
  set (sched1 := [ScheduleUtility cb_ok [VInt 7] [];
                  Tick 0; Tick 0; Tick 0; StopJoin;
                  Tick 1; Tick 1; Tick 1; StopJoin;
                  Tick 2; Tick 2; Tick 2; StopJoin;
                  Tick 3; Tick 3; Tick 3; StopJoin]).
  set (s := EventDispatcher VNone (1 # 10) false 1).
  change (exists s1 s2,
    exec (StopBegin :: sched1 ++ [StopClear]) s = Some s1 /\
    exec [Invoke (wrapped 2 cb_ok) [VInt 8] []] s1 = Some s2 /\
    (forall tid, alive tid s2 = false) /\
    qsize 0 s2 = 1%nat /\ qsize 2 s2 = 1%nat).
  destruct (exec (StopBegin :: sched1 ++ [StopClear]) s) as [s1|] eqn:H1;
    [|by vm_compute in H1].
  destruct (exec [Invoke (wrapped 2 cb_ok) [VInt 8] []] s1) as [s2|] eqn:H2;
    [|done].
  exists s1, s2. split; [reflexivity|]. split; [exact H2|].
  destruct no_dequeue_after_stop as [Hstop _].
  destruct (Hstop s sched1 s1 [Invoke (wrapped 2 cb_ok) [VInt 8] []] s2)
    as (_ & Hdead & _); [by vm_compute| | |exact H1|exact H2|].
  - subst s. rewrite EventDispatcher_constructed. apply constructed_managed.
  - subst sched1. intros Hin. repeat (apply elem_of_cons in Hin as [Hin|Hin]; [done|]).
    by apply elem_of_nil in Hin.
  - split; [exact Hdead|].
    vm_compute in H1. injection H1 as <-.
    vm_compute in H2. injection H2 as <-.
    split; reflexivity.
Defined.

(** * Further properties of the code *)

(** ** Queues across every interleaving *)

(** X1: across any schedule and for every queue, the shared utility queue
    included, the tasks taken from it so far followed by the tasks still
    waiting are the tasks that were pending followed by the tasks put, in
    the order of the puts: no task is lost, taken twice or overtaken.  And
    what a worker has taken is what it has run followed by what it holds. *)
Theorem queue_conservation sched s s' :
  exec sched s = Some s' ->
  exists h,
    history s' = history s ++ h /\
    (forall q, gets_from q h ++ contents q s' = contents q s ++ puts_on q h) /\
    (forall tid, runs_of tid h ++ inflight tid s' = inflight tid s ++ gets_of tid h).
Proof.
  intros (h & Hh & Hc & Hr & _)%follows_exec. by exists h.
Qed.

Lemma queue_conservation_witness :
  exists s',
    exec [ScheduleUtility cb_ok [VInt 0] []; ScheduleUtility cb_ok [VInt 1] [];
          ScheduleUtility cb_ok [VInt 2] [];
          Tick 3; Tick 4; Tick 3; Tick 4; Tick 4; Tick 3]
         default_dispatcher = Some s' /\
    gets_from 0 (history s') ++ contents 0 s' = puts_on 0 (history s') /\
    inflight 3 s' = [(cb_ok, [VInt 1], [])] /\
    inflight 4 s' = [(cb_ok, [VInt 0], [])].
Proof.
  set (sched := [ScheduleUtility cb_ok [VInt 0] []; ScheduleUtility cb_ok [VInt 1] [];
                 ScheduleUtility cb_ok [VInt 2] [];
                 Tick 3; Tick 4; Tick 3; Tick 4; Tick 4; Tick 3]).
  destruct (exec sched default_dispatcher) as [s'|] eqn:He;
    [|by vm_compute in He].
  exists s'. split; [reflexivity|].
  destruct (queue_conservation sched default_dispatcher s' He) as (h & Hh & Hc & _).
  split.
  - replace (history default_dispatcher) with (@nil event) in Hh
      by (by vm_compute).
    simpl in Hh. rewrite Hh, (Hc 0%nat).
    replace (contents 0 default_dispatcher) with (@nil Task) by (by vm_compute).
    reflexivity.
  - vm_compute in He. injection He as <-. split; reflexivity.
Defined.

(** ** What no schedule changes *)

Lemma threads_dict_exec sched : forall s s',
  StopClear ∉ sched -> exec sched s = Some s' -> _threads s' = _threads s.
Proof.
  induction sched as [|a sched IH]; intros s s' Hnc H; cbn [exec] in H.
  - by simplify_eq.
  - apply not_elem_of_cons in Hnc as [Hne Hnc].
    destruct (step a s) as [s1|] eqn:Ha; [|done]. cbn [mbind option_bind] in H.
    destruct (step_frame _ _ _ Ha) as (_ & F2 & _).
    rewrite (IH _ _ Hnc H). apply F2. congruence.
Qed.

(** X2: across any schedule the stop event, once set, stays set; no thread
    object is added to or removed from the store; every thread keeps the
    queue it was constructed with; a thread that is over stays as it is;
    and as long as no [stop()] reaches its last line, [_threads] is the same
    dict, so a category that [wrap_callback] accepts stays accepted. *)
Theorem dispatcher_invariants sched s s' :
  exec sched s = Some s' ->
  (_stop_event s = true -> _stop_event s' = true) /\
  length (thread_store s') = length (thread_store s) /\
  (forall tid, queue_of tid s' = queue_of tid s) /\
  (forall tid, alive tid s = false -> thread_at tid s' = thread_at tid s) /\
  (StopClear ∉ sched -> _threads s' = _threads s).
Proof.
  intros H. destruct (persists_exec _ _ _ H) as (Pf & Pd & Pl).
  pose proof (follows_exec _ _ _ H) as (h & _ & _ & _ & Hq & _).
  split_and!; try done. intros Hnc. by eapply threads_dict_exec.
Qed.

Lemma dispatcher_invariants_witness :
  exists s',
    exec [StopBegin; Tick 1; Tick 1; Invoke (wrapped 2 cb_ok) [] []]
         default_dispatcher = Some s' /\
    queue_of 1 s' = Some 2%nat /\
    map fst (_threads s') = map fst (_threads default_dispatcher).
Proof.
  set (sched := [StopBegin; Tick 1; Tick 1; Invoke (wrapped 2 cb_ok) [] []]).
  destruct (exec sched default_dispatcher) as [s'|] eqn:He;
    [|by vm_compute in He].
  exists s'. split; [reflexivity|].
  destruct (dispatcher_invariants sched default_dispatcher s' He)
    as (_ & _ & Hq & _ & Hd).
  split.
  - rewrite Hq. by vm_compute.
  - rewrite Hd; [reflexivity|]. subst sched. intros Hin.
    repeat (apply elem_of_cons in Hin as [Hin|Hin]; [done|]).
    by apply elem_of_nil in Hin.
Defined.

(** ** Shutdown latency *)

Lemma over_within d : forall tid s,
  _stop_event s = true ->
  (forall w, thread_at tid s = Some w -> (distance (t_phase w) <= d)%nat) ->
  exists k s', (k <= d)%nat /\
               exec (repeat (Tick tid) k) s = Some s' /\ alive tid s' = false.
Proof.
  induction d as [|d IH]; intros tid s Hflag Hd.
  - exists 0%nat, s. split_and!; [done|done|].
    unfold alive, is_alive. destruct (thread_at tid s) as [w|] eqn:Hw; [|done].
    specialize (Hd w eq_refl). destruct (t_phase w); simpl in Hd; try lia; done.
  - destruct (alive tid s) eqn:Ha; [|exists 0%nat, s; split_and!; [lia|done|done]].
    unfold alive in Ha. destruct (thread_at tid s) as [w|] eqn:Hw; [|done].
    destruct (tick_closer tid s w Hw Ha Hflag) as (s1 & w1 & Hs & Hw1 & Hlt).
    destruct (IH tid s1) as (k & s' & Hk & He & Hdead).
    + destruct (persists_step _ _ _ Hs) as (Pf & _). by apply Pf.
    + intros w' Hw'. simplify_eq. specialize (Hd w eq_refl). lia.
    + exists (S k), s'. split_and!; [lia| |done].
      cbn [repeat exec]. rewrite Hs. by cbn [mbind option_bind].
Qed.

(** X3: once the stop event is set, a worker that is alive is over after at
    most five of its own steps, wherever it stands in [run], whatever is in
    its queue and whatever its timeout: at most [queue.get], the two
    statements of the [try], the test of the loop and the lines after the
    loop. *)
Theorem worker_over_within_five_steps tid s :
  _stop_event s = true -> alive tid s = true ->
  exists k s', (k <= 5)%nat /\
               exec (repeat (Tick tid) k) s = Some s' /\ alive tid s' = false.
Proof.
  intros Hflag _. apply over_within; [done|].
  intros w _. destruct (t_phase w); simpl; lia.
Qed.

Lemma worker_over_within_five_steps_witness :
  exists k s',
    (k <= 5)%nat /\
    exec (repeat (Tick 1) k)
      (default default_dispatcher
         (exec [Invoke (wrapped 2 cb_ok) [VInt 1] []; Tick 1; Tick 1; StopBegin]
            default_dispatcher)) = Some s' /\
    alive 1 s' = false.
Proof.
  apply worker_over_within_five_steps; by vm_compute.
Defined.

Lemma winds_down_refl s : winds_down s s.
Proof.
  intros Hflag. split; [done|]. exists []. split; [by rewrite app_nil_r|].
  intros tid. simpl. lia.
Qed.

Lemma winds_down_trans s1 s2 s3 :
  winds_down s1 s2 -> winds_down s2 s3 -> winds_down s1 s3.
Proof.
  intros H12 H23 Hflag. destruct (H12 Hflag) as (Hf2 & h1 & Hh1 & Hb1).
  destruct (H23 Hf2) as (Hf3 & h2 & Hh2 & Hb2). split; [done|].
  exists (h1 ++ h2). split; [by rewrite Hh2, Hh1, app_assoc|].
  intros tid. unfold gets_of in *. rewrite omap_app, length_app.
  specialize (Hb1 tid). specialize (Hb2 tid). lia.
Qed.

Lemma winds_down_quiet s s' h :
  history s' = history s ++ h -> Forall quiet h ->
  (forall tid, thread_at tid s' = thread_at tid s) ->
  (_stop_event s = true -> _stop_event s' = true) ->
  winds_down s s'.
Proof.
  intros Hh Hq Ht Hf Hflag. split; [auto|]. exists h. split; [done|].
  intros tid. rewrite quiet_gets_of by done. unfold phase_of. rewrite Ht.
  simpl. lia.
Qed.

Lemma winds_down_step a s s' : step a s = Some s' -> winds_down s s'.
Proof.
  intros H. pose proof H as H'.
  destruct (persists_step _ _ _ H) as (Pf & _).
  step_cases H'.
  - intros Hflag. split; [auto|].
    apply tick_inv in H as (w & Hw & Ht).
    destruct Ht as [Hp|Hp|Hp Hn|Hp Hn Hq|t rest Hp Hn Hq|t i Hp Hi|t Hp Hi|t Hp|Hp].
    + exists []. split; [by rewrite app_nil_r|]. intros tid'. simpl.
      unfold phase_of. autorewrite with store.
      case_decide; simplify_eq; rewrite ?Hw; simpl; rewrite ?Hp; simpl; lia.
    + exists []. split; [by rewrite app_nil_r|]. intros tid'. simpl.
      unfold phase_of. autorewrite with store. rewrite Hflag.
      case_decide; simplify_eq; rewrite ?Hw; simpl; rewrite ?Hp; simpl; lia.
    + exists []. split; [by rewrite app_nil_r|]. intros tid'. simpl.
      unfold phase_of. autorewrite with store.
      case_decide; simplify_eq; rewrite ?Hw; simpl; rewrite ?Hp; simpl; lia.
    + exists []. split; [by rewrite app_nil_r|]. intros tid'. simpl.
      unfold phase_of. autorewrite with store.
      case_decide; simplify_eq; rewrite ?Hw; simpl; rewrite ?Hp; simpl; lia.
    + exists [EvGet tid (t_queue w) t]. split; [done|]. intros tid'.
      unfold gets_of, phase_of. simpl. autorewrite with store.
      repeat case_decide; simplify_eq; rewrite ?Hw; simpl; rewrite ?Hp; simpl; lia.
    + exists [EvBegin tid t]. split; [done|]. intros tid'.
      unfold gets_of, phase_of. simpl. autorewrite with store.
      repeat case_decide; simplify_eq; rewrite ?Hw; simpl; rewrite ?Hp; simpl; lia.
    + destruct (finish_phase tid t (inr (AttributeError "__name__")) s _ Hw)
        as (w' & Hw' & _ & _ & _ & Hph).
      destruct (finish_frame tid t (inr (AttributeError "__name__")) s)
        as (_ & _ & _ & G4 & _).
      exists [EvRun tid t (inr (AttributeError "__name__"))]. split; [done|].
      intros tid'.
      change (gets_of tid' [EvRun tid t (inr (AttributeError "__name__"))])
        with (@nil Task).
      cbn [length]. unfold phase_of.
      destruct (decide (tid' = tid)) as [->|Hne].
      * rewrite Hw', Hw. simpl. rewrite Hp.
        destruct Hph as [[-> _]|(e & _ & _ & ->)]; simpl; lia.
      * rewrite G4 by done. lia.
    + destruct (call_task_effect t s) as (h & Hh & Hqt & _).
      set (r := fst (call_task t s)) in *.
      set (s1 := snd (call_task t s)) in *.
      pose proof (call_task_thread tid t s) as Hw1. fold s1 in Hw1.
      rewrite Hw in Hw1.
      destruct (finish_phase tid t r s1 _ Hw1) as (w' & Hw' & _ & _ & _ & Hph).
      destruct (finish_frame tid t r s1) as (_ & _ & _ & G4 & _).
      exists (h ++ [EvRun tid t r]). split.
      * unfold finish. destruct r as [v|e]; [|destruct (is_Exception e)]; simpl;
          by rewrite Hh, app_assoc.
      * intros tid'. unfold gets_of. rewrite omap_app. fold (gets_of tid' h).
        rewrite quiet_gets_of by done. simpl. unfold phase_of.
        destruct (decide (tid' = tid)) as [->|Hne].
        -- rewrite Hw', Hw. simpl. rewrite Hp.
           destruct Hph as [[-> _]|(e & _ & _ & ->)]; simpl; lia.
        -- rewrite G4 by done. subst s1. rewrite call_task_thread. lia.
    + exists []. split; [by rewrite app_nil_r|]. intros tid'. simpl.
      unfold phase_of. autorewrite with store.
      repeat case_decide; simplify_eq; rewrite ?Hw; simpl; rewrite ?Hp; simpl; lia.
  - destruct (call_effect c args kw s) as (h & Hh & Hqt & _ & Hts & _).
    apply (winds_down_quiet _ _ h); try done.
    intros tid. unfold thread_at. by rewrite Hts.
  - apply (winds_down_quiet _ _ [EvPut (_utility_queue s) (c, args, kw)]);
      try done. by repeat constructor.
  - apply (winds_down_quiet _ _ []); try done. by rewrite app_nil_r.
  - apply (winds_down_quiet _ _ []); try done. by rewrite app_nil_r.
  - apply (winds_down_quiet _ _ []); try done. by rewrite app_nil_r.
  - apply (winds_down_quiet _ _ []); try done. by rewrite app_nil_r.
  - apply (winds_down_quiet _ _ []); try done. by rewrite app_nil_r.
Qed.

(** X4: once the stop event is set, in whatever follows a worker takes at
    most one more task from its queue, and only if it was already inside
    [queue.get] when the event was set; a worker that was anywhere else takes
    none, however many tasks wait or arrive. *)
Theorem at_most_one_task_after_stop_event sched s s' :
  _stop_event s = true -> exec sched s = Some s' ->
  exists h,
    history s' = history s ++ h /\
    forall tid,
      (length (gets_of tid h) <= 1)%nat /\
      (phase_of tid s <> Some Polling -> gets_of tid h = []).
Proof.
  intros Hflag H.
  assert (winds_down s s') as Hw.
  { revert H. apply (exec_preorder winds_down);
      [apply winds_down_refl|apply winds_down_trans|apply winds_down_step]. }
  destruct (Hw Hflag) as (_ & h & Hh & Hb). exists h. split; [done|].
  intros tid. specialize (Hb tid). split.
  - unfold budget in Hb at 2. destruct (phase_of tid s) as [[]|]; lia.
  - intros Hne. apply length_zero_iff_nil.
    unfold budget in Hb at 2. destruct (phase_of tid s) as [[]|]; try lia.
    done.
Qed.

Lemma at_most_one_task_after_stop_event_witness :
  exists s',
    exec [Tick 1; Tick 1; Tick 1; Tick 1; Tick 1]
      (default default_dispatcher
         (exec [Tick 1; Tick 1; Invoke (wrapped 2 cb_ok) [VInt 1] [];
                Invoke (wrapped 2 cb_ok) [VInt 2] []; StopBegin]
            default_dispatcher)) = Some s' /\
    world s' = [VInt 1] /\ qsize 2 s' = 1%nat /\ alive 1 s' = false.
Proof.
  set (s := default default_dispatcher
         (exec [Tick 1; Tick 1; Invoke (wrapped 2 cb_ok) [VInt 1] [];
                Invoke (wrapped 2 cb_ok) [VInt 2] []; StopBegin]
            default_dispatcher)).
  destruct (exec [Tick 1; Tick 1; Tick 1; Tick 1; Tick 1] s) as [s'|] eqn:He;
    [|by vm_compute in He].
  exists s'. split; [reflexivity|].
  destruct (at_most_one_task_after_stop_event _ s s' ltac:(by vm_compute) He)
    as (h & _ & _).
  vm_compute in He. injection He as <-. split_and!; reflexivity.
Defined.

(** ** An exception that [except Exception] lets through *)

Lemma private_step a s s' q tid :
  step a s = Some s' -> private q tid s -> private q tid s'.
Proof.
  intros (h & _ & _ & _ & Hq & _)%follows_step [Hown Honly]. split.
  - by rewrite Hq.
  - intros tid' H. apply Honly. by rewrite <- Hq.
Qed.

(** X5: a task whose callback, when the worker calls it, raises an
    exception that does not derive from [Exception] ends the worker: the
    step writes nothing to the logger, does not run [detach_context] (the
    thread keeps its context), and the thread is over.  In whatever follows
    it stays over and takes nothing; when it was the only reader of its
    queue, the queue only grows: the tasks behind the failing one are never
    run. *)
Theorem system_exit_ends_the_worker tid s w t e :
  thread_at tid s = Some w -> t_phase w = Calling t ->
  fst (call_task t s) = inr e -> is_Exception e = false ->
  exists s1,
    step (Tick tid) s = Some s1 /\
    phase_of tid s1 = Some (Crashed e) /\
    alive tid s1 = false /\
    logger s1 = logger s /\
    t_context <$> thread_at tid s1 = Some (t_context w) /\
    (forall tid', tid' <> tid -> thread_at tid' s1 = thread_at tid' s) /\
    forall sched s2,
      exec sched s1 = Some s2 ->
      alive tid s2 = false /\
      exists h, history s2 = history s1 ++ h /\
                gets_of tid h = [] /\
                (private (t_queue w) tid s ->
                 contents (t_queue w) s2 =
                 contents (t_queue w) s1 ++ puts_on (t_queue w) h).
Proof.
  intros Hw Hp Hraise Hexc.
  set (s3 := snd (call_task t s)).
  pose proof (tick_to_step tid w s _ Hw (tick_to_Calling tid w s t Hp)) as Hstep.
  rewrite Hraise in Hstep. fold s3 in Hstep.
  destruct (call_task_effect t s) as (h0 & _ & _ & _ & _ & _ & _ & _ & Hl).
  fold s3 in Hl.
  pose proof (call_task_thread tid t s) as Hw3. fold s3 in Hw3. rewrite Hw in Hw3.
  destruct (finish_frame tid t (inr e) s3) as (_ & _ & _ & G4 & _).
  set (s1 := finish tid t (inr e) s3) in *.
  assert (Hw1 : thread_at tid s1 = Some (set_phase (Crashed e) w)).
  { subst s1. unfold finish. rewrite Hexc. autorewrite with store.
    rewrite decide_True by done. by rewrite Hw3. }
  assert (Hdead : alive tid s1 = false).
  { unfold alive. by rewrite Hw1. }
  exists s1. split_and!; try done.
  - unfold phase_of. by rewrite Hw1.
  - subst s1. unfold finish. rewrite Hexc. simpl. exact Hl.
  - by rewrite Hw1.
  - intros tid' Hne. rewrite G4 by done. subst s3. apply call_task_thread.
  - intros sched s2 H2. split; [by eapply dead_exec|].
    pose proof (follows_exec _ _ _ H2) as (h & Hh & Hc & _ & _ & Hg & Hx & _).
    assert (quitting tid s1) as Hquit.
    { unfold quitting, phase_of. by rewrite Hw1. }
    destruct (Hx tid Hquit) as [_ Hno].
    exists h. split_and!; try done. intros Hpriv.
    assert (private (t_queue w) tid s1) as Hpriv1.
    { by eapply private_step. }
    rewrite <- Hc, (gets_from_private _ tid s1 h Hpriv1 Hg), Hno. done.
Qed.

Lemma system_exit_ends_the_worker_witness :
  exists s1 s2,
    step (Tick 1)
      (default default_dispatcher
         (exec [Invoke (wrapped 2 cb_exit) [] []; Invoke (wrapped 2 cb_ok) [VInt 1] [];
                Tick 1; Tick 1; Tick 1; Tick 1] default_dispatcher)) = Some s1 /\
    stop s1 = Some s2 /\
    alive 1 s1 = false /\ logger s1 = logger default_dispatcher ++
      [LogDebug "Callback thread %s started" [VStr "monitor"];
       LogDebug "Callback thread %s attaching to context %s" [VStr "monitor"; VNone]] /\
    world s2 = [].
Proof.
  set (s := default default_dispatcher
         (exec [Invoke (wrapped 2 cb_exit) [] []; Invoke (wrapped 2 cb_ok) [VInt 1] [];
                Tick 1; Tick 1; Tick 1; Tick 1] default_dispatcher)).
  destruct (system_exit_ends_the_worker 1 s
              (mkThread "monitor" VNone (Some ("quit", VNone)) 2 (1 # 10) true
                 (Calling (cb_exit, [], [])))
              (cb_exit, [], []) (SystemExiting "exit"))
    as (s1 & Hs1 & _ & Hdead & _); [by vm_compute|reflexivity|by vm_compute|reflexivity|].
  destruct (stop s1) as [s2|] eqn:Hs2;
    [|vm_compute in Hs1; injection Hs1 as <-; by vm_compute in Hs2].
  exists s1, s2. split; [exact Hs1|]. split; [exact Hs2|].
  split; [exact Hdead|].
  vm_compute in Hs1. injection Hs1 as <-.
  vm_compute in Hs2. injection Hs2 as <-. split; reflexivity.
Defined.

(** ** The life of a worker that finds the stop event set *)

(** X6: a worker that is started when the stop event is already set runs
    [run] to its end in three steps without touching its queue: the logger
    gains "started", "attaching", "detaching" and "exiting", in this order
    and with the context that the thread was given, the thread's context is
    then [None], the thread is over, and no queue and no other thread has
    changed, whatever waits in the queue. *)
Theorem started_after_stop_takes_nothing tid s w :
  thread_at tid s = Some w -> t_phase w = Started -> _stop_event s = true ->
  exists s',
    exec [Tick tid; Tick tid; Tick tid] s = Some s' /\
    logger s' = logger s ++
      [LogDebug "Callback thread %s started" [VStr (t_name w)];
       LogDebug "Callback thread %s attaching to context %s"
         [VStr (t_name w); t_context w];
       LogDebug "Callback thread %s detaching from context %s"
         [VStr (t_name w); t_context w];
       LogDebug "Callback thread %s exiting" [VStr (t_name w)]] /\
    thread_at tid s' = Some (set_phase Exited (set_context VNone w)) /\
    alive tid s' = false /\
    queue_store s' = queue_store s /\
    history s' = history s /\
    world s' = world s /\
    (forall tid', tid' <> tid -> thread_at tid' s' = thread_at tid' s).
Proof.
  intros Hw Hp Hflag.
  pose proof (tick_to_step tid w s _ Hw (tick_to_Started tid w s Hp)) as H1.
  match type of H1 with _ = Some ?x => set (s1 := x) in * end.
  assert (Hw1 : thread_at tid s1 = Some (set_phase LoopHead w)).
  { subst s1. autorewrite with store. rewrite decide_True by done. by rewrite Hw. }
  pose proof (tick_to_step tid _ s1 _ Hw1
                (tick_to_LoopHead tid (set_phase LoopHead w) s1 eq_refl)) as H2.
  replace (_stop_event s1) with true in H2 by (by rewrite <- Hflag).
  match type of H2 with _ = Some ?x => set (s2 := x) in * end.
  assert (Hw2 : thread_at tid s2 = Some (set_phase Exiting (set_phase LoopHead w))).
  { subst s2. autorewrite with store. rewrite decide_True by done. by rewrite Hw1. }
  pose proof (tick_to_step tid _ s2 _ Hw2
                (tick_to_Exiting tid (set_phase Exiting (set_phase LoopHead w))
                   s2 eq_refl)) as H3.
  match type of H3 with _ = Some ?x => set (s3 := x) in * end.
  exists s3. split_and!.
  - cbn [exec]. rewrite H1. cbn [mbind option_bind]. rewrite H2.
    cbn [mbind option_bind]. rewrite H3. done.
  - subst s3 s2 s1. simpl. by rewrite <- !app_assoc.
  - subst s3. autorewrite with store. rewrite !decide_True by done.
    by rewrite Hw2.
  - unfold alive. subst s3. autorewrite with store.
    rewrite !decide_True by done. by rewrite Hw2.
  - done.
  - done.
  - done.
  - intros tid' Hne. subst s3 s2 s1. autorewrite with store.
    by repeat case_decide.
Qed.

Lemma started_after_stop_takes_nothing_witness :
  exists s',
    exec [Tick 0; Tick 0; Tick 0]
      (default default_dispatcher
         (exec [Invoke (wrapped 1 cb_ok) [VInt 1] []; StopBegin]
            default_dispatcher)) = Some s' /\
    alive 0 s' = false /\ qsize 1 s' = 1%nat.
Proof.
  set (s := default default_dispatcher
         (exec [Invoke (wrapped 1 cb_ok) [VInt 1] []; StopBegin]
            default_dispatcher)).
  destruct (started_after_stop_takes_nothing 0 s
              (mkThread "metadata" VNone None 1 (1 # 10) true Started))
    as (s' & He & _ & _ & Hdead & Hq & _); [by vm_compute|reflexivity|by vm_compute|].
  exists s'. split; [exact He|]. split; [exact Hdead|].
  unfold qsize, contents. rewrite Hq. by vm_compute.
Defined.

(** ** is_alive *)

Lemma threads_dict_empty_exec sched : forall s s',
  _threads s = [] -> exec sched s = Some s' -> _threads s' = [].
Proof.
  induction sched as [|a sched IH]; intros s s' He H; cbn [exec] in H.
  - by simplify_eq.
  - destruct (step a s) as [s1|] eqn:Ha; [|done]. cbn [mbind option_bind] in H.
    apply (IH s1); [|done].
    destruct (step_frame _ _ _ Ha) as (_ & F2 & _).
    destruct a; try (rewrite F2 by done; done).
    simpl in Ha. destruct (stopper s) as [[|]|]; by simplify_eq.
Qed.

(** X7: [is_alive()] is true exactly when some thread held by [_threads] is
    alive.  It is true for a dispatcher as the constructor returns it,
    whatever the pool size, and after a call of [stop()] has returned,
    however the other threads were interleaved, it is false and stays false
    in whatever follows. *)
Theorem is_alive_reports_held_threads :
  (forall s, EventDispatcher_is_alive s = true <->
             exists name tid, (name, tid) ∈ _threads s /\ alive tid s = true) /\
  (forall ctx tmo dbg n,
     EventDispatcher_is_alive (EventDispatcher ctx tmo dbg n) = true) /\
  (forall s sched s' sched2 s2,
     stopper s = None -> StopBegin ∉ sched ->
     exec (StopBegin :: sched ++ [StopClear]) s = Some s' ->
     exec sched2 s' = Some s2 ->
     EventDispatcher_is_alive s2 = false).
Proof.
  split_and!.
  - intros s. unfold EventDispatcher_is_alive. rewrite existsb_exists. split.
    + intros ([name tid] & Hin & Ha). exists name, tid.
      split; [by apply list_elem_of_In|done].
    + intros (name & tid & Hin & Ha). exists (name, tid).
      split; [by apply list_elem_of_In|done].
  - intros ctx tmo dbg n. rewrite EventDispatcher_constructed. reflexivity.
  - intros s sched s' sched2 s2 Hst Hnb H H2.
    destruct (stop_returns sched s s' Hst Hnb H) as (_ & Hts & _).
    unfold EventDispatcher_is_alive.
    by rewrite (threads_dict_empty_exec _ _ _ Hts H2).
Qed.

Lemma is_alive_reports_held_threads_witness :
  exists s',
    stop default_dispatcher = Some s' /\
    EventDispatcher_is_alive default_dispatcher = true /\
    EventDispatcher_is_alive s' = false.
Proof.
  destruct is_alive_reports_held_threads as (_ & Hnew & Hstop).
  destruct (stop_total default_dispatcher) as (s' & sched & Hs & Hnb & He);
    [by vm_compute|].
  exists s'. split; [exact Hs|]. split; [apply Hnew|].
  apply (Hstop default_dispatcher sched s' [] s'); [by vm_compute|done|done|done].
Defined.

(** ** Exceptions and the logger *)

Lemma quiet_caught h : Forall quiet h -> caught h = [].
Proof.
  induction 1 as [|e h He _ IH]; [done|].
  destruct e; try done; exact IH.
Qed.

Lemma logs_runs_refl s : logs_runs s s.
Proof. exists [], []. by rewrite !app_nil_r. Qed.

Lemma logs_runs_trans s1 s2 s3 :
  logs_runs s1 s2 -> logs_runs s2 s3 -> logs_runs s1 s3.
Proof.
  intros (h1 & l1 & Hh1 & Hl1 & He1) (h2 & l2 & Hh2 & Hl2 & He2).
  exists (h1 ++ h2), (l1 ++ l2). split_and!.
  - by rewrite Hh2, Hh1, app_assoc.
  - by rewrite Hl2, Hl1, app_assoc.
  - unfold exceptions, caught in *. by rewrite !omap_app, He1, He2.
Qed.

Lemma logs_runs_step a s s' : step a s = Some s' -> logs_runs s s'.
Proof.
  intros H. pose proof H as H'. step_cases H'.
  - apply tick_inv in H as (w & Hw & Ht).
    destruct Ht as [Hp|Hp|Hp Hn|Hp Hn Hq|t rest Hp Hn Hq|t i Hp Hi|t Hp Hi|t Hp|Hp].
    + exists [], [LogDebug "Callback thread %s started" [VStr (t_name w)];
                  LogDebug "Callback thread %s attaching to context %s"
                    [VStr (t_name w); t_context w]].
      simpl. split_and!; [by rewrite app_nil_r|by rewrite <- app_assoc|done].
    + exists [], []. simpl. by rewrite !app_nil_r.
    + exists [], []. simpl. by rewrite !app_nil_r.
    + exists [], []. simpl. by rewrite !app_nil_r.
    + exists [EvGet tid (t_queue w) t], []. simpl. by rewrite !app_nil_r.
    + exists [EvBegin tid t], []. simpl. by rewrite !app_nil_r.
    + by exists [EvRun tid t (inr (AttributeError "__name__"))],
                [LogException "Exception occurred during callback %r (pvname=%r)"
                   (fst (fst t)) (kwargs_get "pvname" (snd t))].
    + destruct (call_task_effect t s) as (h & Hh & Hqt & _ & _ & _ & _ & _ & Hl).
      set (r := fst (call_task t s)) in *.
      set (s1 := snd (call_task t s)) in *.
      exists (h ++ [EvRun tid t r]),
             (match r with
              | inr e => if is_Exception e
                         then [LogException
                                 "Exception occurred during callback %r (pvname=%r)"
                                 (fst (fst t)) (kwargs_get "pvname" (snd t))]
                         else []
              | inl _ => []
              end).
      unfold finish, caught. rewrite omap_app. fold (caught h).
      rewrite quiet_caught by done.
      destruct r as [v|e]; [|destruct (is_Exception e) eqn:He]; simpl;
        rewrite ?He, Hh, Hl, ?app_nil_r; split_and!; try done;
        by rewrite app_assoc.
    + exists [], [LogDebug "Callback thread %s detaching from context %s"
                    [VStr (t_name w); t_context w];
                  LogDebug "Callback thread %s exiting" [VStr (t_name w)]].
      simpl. split_and!; [by rewrite app_nil_r|by rewrite <- app_assoc|done].
  - destruct (call_effect c args kw s) as (h & Hh & Hqt & _ & _ & _ & _ & _ & Hl).
    exists h, []. rewrite Hl, app_nil_r. split_and!; try done.
    by rewrite quiet_caught.
  - exists [EvPut (_utility_queue s) (c, args, kw)], []. simpl.
    by rewrite app_nil_r.
  - exists [], []. simpl. by rewrite !app_nil_r.
  - exists [], []. simpl. by rewrite !app_nil_r.
  - exists [], []. simpl. by rewrite !app_nil_r.
  - exists [], []. simpl. by rewrite !app_nil_r.
  - exists [], []. simpl. by rewrite !app_nil_r.
Qed.

(** X8: across any schedule, the exception records that the logger gains
    are, in order, one for each inner [try] that ended in an exception
    deriving from [Exception], with the callable and
    [kwargs.get('pvname')] of that task: every such failure is logged
    exactly once, a run that returned or that ended in a system exit is not
    logged, and nothing else writes an exception record. *)
Theorem every_caught_exception_is_logged_once sched s s' :
  exec sched s = Some s' ->
  exists h l,
    history s' = history s ++ h /\
    logger s' = logger s ++ l /\
    exceptions l = caught h.
Proof.
  apply (exec_preorder logs_runs);
    [apply logs_runs_refl|apply logs_runs_trans|apply logs_runs_step].
Qed.

Lemma every_caught_exception_is_logged_once_witness :
  exists s',
    exec [Invoke (wrapped 2 cb_bad) [] [("pvname", VStr "pv")];
          Invoke (wrapped 2 cb_ok) [] []; Invoke (wrapped 2 cb_exit) [] [];
          Tick 1; Tick 1; Tick 1; Tick 1; Tick 1; Tick 1; Tick 1; Tick 1;
          Tick 1; Tick 1; Tick 1; Tick 1; Tick 1]
         default_dispatcher = Some s' /\
    exceptions (logger s') =
      [LogException "Exception occurred during callback %r (pvname=%r)"
         cb_bad (VStr "pv")] /\
    phase_of 1 s' = Some (Crashed (SystemExiting "exit")).
Proof.
  set (sched := [Invoke (wrapped 2 cb_bad) [] [("pvname", VStr "pv")];
          Invoke (wrapped 2 cb_ok) [] []; Invoke (wrapped 2 cb_exit) [] [];
          Tick 1; Tick 1; Tick 1; Tick 1; Tick 1; Tick 1; Tick 1; Tick 1;
          Tick 1; Tick 1; Tick 1; Tick 1; Tick 1]).
  destruct (exec sched default_dispatcher) as [s'|] eqn:He;
    [|by vm_compute in He].
  exists s'. split; [reflexivity|].
  destruct (every_caught_exception_is_logged_once sched _ s' He)
    as (h & l & _ & _ & _).
  vm_compute in He. injection He as <-. split; reflexivity.
Defined.

(** ** The diagnostics thread *)











Lemma call_output c args kw s :
  stdout (snd (call c args kw s)) = stdout s /\
  _debug_monitor_thread (snd (call c args kw s)) = _debug_monitor_thread s.
Proof. destruct c; [by rewrite call_Func|by rewrite call_wrapped]. Qed.

Lemma finish_output tid t r s :
  stdout (finish tid t r s) = stdout s /\
  _debug_monitor_thread (finish tid t r s) = _debug_monitor_thread s.
Proof. unfold finish. by destruct r as [v|e]; [|destruct (is_Exception e)]. Qed.

Lemma tick_output tid s s' :
  step (Tick tid) s = Some s' ->
  stdout s' = stdout s /\ _debug_monitor_thread s' = _debug_monitor_thread s.
Proof.
  intros (w & Hw & Ht)%tick_inv.
  destruct Ht as [Hp|Hp|Hp Hn|Hp Hn Hq|t rest Hp Hn Hq|t i Hp Hi|t Hp Hi|t Hp|Hp];
    try done.
  destruct (finish_output tid t (fst (call_task t s)) (snd (call_task t s)))
    as [-> ->].
  destruct t as [[c args] kw]. apply call_output.
Qed.

Lemma falls_silent_refl s : falls_silent s s.
Proof.
  intros Hflag. split; [done|]. exists []. split; [by rewrite app_nil_r|].
  simpl. lia.
Qed.

Lemma falls_silent_trans s1 s2 s3 :
  falls_silent s1 s2 -> falls_silent s2 s3 -> falls_silent s1 s3.
Proof.
  intros H12 H23 Hflag. destruct (H12 Hflag) as (Hf2 & o1 & Ho1 & Hb1).
  destruct (H23 Hf2) as (Hf3 & o2 & Ho2 & Hb2). split; [done|].
  exists (o1 ++ o2). split; [by rewrite Ho2, Ho1, app_assoc|].
  rewrite length_app. lia.
Qed.

Lemma falls_silent_same s s' :
  (_stop_event s = true -> _stop_event s' = true) ->
  stdout s' = stdout s -> _debug_monitor_thread s' = _debug_monitor_thread s ->
  falls_silent s s'.
Proof.
  intros Hf Ho Hm Hflag. split; [auto|]. exists [].
  split; [by rewrite Ho, app_nil_r|]. unfold lines_left. rewrite Hm. simpl. lia.
Qed.

Lemma falls_silent_step a s s' : step a s = Some s' -> falls_silent s s'.
Proof.
  intros H. destruct (persists_step _ _ _ H) as (Pf & _).
  destruct a; simpl in H.
  - destruct (tick_output _ _ _ H) as [Ho Hm]. by apply falls_silent_same.
  - simplify_eq. destruct (call_output c args kw s) as [Ho Hm].
    by apply falls_silent_same.
  - simplify_eq. by apply falls_silent_same.
  - destruct (stopper s); simplify_eq. by apply falls_silent_same.
  - destruct (stopper s) as [[|[name tid] rest]|]; try done.
    destruct (alive tid s); simplify_eq. by apply falls_silent_same.
  - destruct (stopper s) as [[|]|]; simplify_eq. by apply falls_silent_same.
  - intros Hflag. split; [auto|].
    destruct (_debug_monitor_thread s) as [[| |]|] eqn:Hm; simplify_eq.
    + exists []. split; [by rewrite app_nil_r|].
      unfold lines_left. simpl. rewrite Hflag, Hm. simpl. lia.
    + unfold lines_left. rewrite Hm. simpl.
      destruct (monitor_pass_line s) as [Hsame|(line & Hline)].
      * exists []. rewrite Hsame, app_nil_r. split; [done|]. simpl. lia.
      * exists [line]. split; [done|]. simpl. lia.
Qed.

(** X10: the test of the diagnostics loop and the body that it guards are
    two actions.  Once the stop event is set, the diagnostics thread prints
    at most one more line, and only when it had found the event unset
    before and is about to run the body; from any other point it prints
    nothing more, whatever the queues hold.  A thread that tests with the
    event set leaves the loop and takes no further action. *)
Theorem monitor_prints_at_most_once_after_stop_event :
  (forall sched s s',
     _stop_event s = true -> exec sched s = Some s' ->
     exists lines,
       stdout s' = stdout s ++ lines /\
       (length lines <= 1)%nat /\
       (_debug_monitor_thread s <> Some Reporting -> lines = [])) /\
  (forall s,
     _stop_event s = true -> _debug_monitor_thread s = Some Testing ->
     exists s', step MonitorTick s = Some s' /\
                _debug_monitor_thread s' = Some Finished /\
                stdout s' = stdout s /\
                step MonitorTick s' = None).
Proof.
  split.
  - intros sched s s' Hflag H.
    assert (falls_silent s s') as Hw.
    { revert H. apply (exec_preorder falls_silent);
        [apply falls_silent_refl|apply falls_silent_trans|apply falls_silent_step]. }
    destruct (Hw Hflag) as (_ & lines & Ho & Hb). exists lines.
    split; [done|]. unfold lines_left in Hb. split.
    + destruct (_debug_monitor_thread s) as [[| |]|]; lia.
    + intros Hne. apply length_zero_iff_nil.
      destruct (_debug_monitor_thread s) as [[| |]|]; try lia. done.
  - intros s Hflag Hm. eexists. simpl. rewrite Hm, Hflag.
    split; [reflexivity|]. by split_and!.
Qed.

Lemma monitor_prints_at_most_once_after_stop_event_witness :
  exists s',
    exec [ScheduleUtility cb_ok [] []; MonitorTick; StopBegin; MonitorTick;
          MonitorTick]
      (EventDispatcher VNone (1 # 10) true 2) = Some s' /\
    _stop_event s' = true /\
    stdout s' = [[("util0", 1%nat, None); ("util1", 1%nat, None)]] /\
    _debug_monitor_thread s' = Some Finished.
Proof.
  set (s := default (EventDispatcher VNone (1 # 10) true 2)
              (exec [ScheduleUtility cb_ok [] []; MonitorTick; StopBegin]
                 (EventDispatcher VNone (1 # 10) true 2))).
  destruct monitor_prints_at_most_once_after_stop_event as [Hmost _].
  destruct (exec [MonitorTick; MonitorTick] s) as [s'|] eqn:He;
    [|by vm_compute in He].
  destruct (Hmost _ s s' ltac:(by vm_compute) He) as (lines & Hout & Hlen & _).
  exists s'. split; [by vm_compute in He; injection He as <-; vm_compute|].
  vm_compute in He. injection He as <-. split_and!; reflexivity.
Defined.

(** ** A pool of no workers *)

Lemma gets_from_none q h :
  (forall tid q' t, EvGet tid q' t ∈ h -> q' <> q) -> gets_from q h = [].
Proof.
  induction h as [|e h IH]; intros Hg; [done|].
  assert (gets_from q h = []) as IH'.
  { apply IH. intros ????. eapply Hg. by right. }
  destruct e as [|tid q' t| | |]; try exact IH'.
  unfold gets_from in *. simpl. rewrite decide_False; [done|].
  eapply Hg. by left.
Qed.

(** X11: with a pool size that is not positive the constructor starts the
    three named workers only, and the utility queue has no reader: across
    any schedule nothing is ever taken from it, so it holds every task that
    [schedule_utility_task] was given, in order, and none of them is run. *)
Theorem utility_queue_without_workers ctx tmo dbg (n : Z) sched s' :
  (n <= 0)%Z ->
  exec sched (EventDispatcher ctx tmo dbg n) = Some s' ->
  length (thread_store s') = 3%nat /\
  gets_from (_utility_queue (EventDispatcher ctx tmo dbg n)) (history s') = [] /\
  contents (_utility_queue (EventDispatcher ctx tmo dbg n)) s' =
  puts_on (_utility_queue (EventDispatcher ctx tmo dbg n)) (history s').
Proof.
  intros Hn H. rewrite EventDispatcher_constructed in *.
  assert (Z.to_nat n = 0%nat) as Hz by lia.
  destruct (persists_exec _ _ _ H) as (_ & _ & Hlen).
  pose proof (follows_exec _ _ _ H) as (h & Hh & Hc & _ & _ & Hg & _).
  cbn [history constructed app] in Hh. cbn [_utility_queue constructed].
  assert (gets_from 0 h = []) as Hno.
  { apply gets_from_none. intros tid q t Hin ->.
    apply Hg in Hin. unfold queue_of in Hin.
    destruct (thread_at tid (constructed ctx tmo dbg n)) as [w|] eqn:Hw; [|done].
    simpl in Hin.
    apply constructed_thread_inv in Hw as (Hlt & _ & _ & [Hnamed|[Hge _]]);
      [|lia].
    destruct tid as [|[|[|k]]]; simpl in Hnamed; simplify_eq; simpl in Hin;
      try done. by destruct k. }
  split_and!.
  - rewrite Hlen. cbn [thread_store constructed].
    rewrite length_app, length_map, util_names_length, Hz. done.
  - by rewrite Hh.
  - specialize (Hc 0%nat). rewrite Hno in Hc. rewrite Hh. simpl in Hc.
    rewrite Hc. done.
Qed.

Lemma utility_queue_without_workers_witness :
  exists s',
    exec [ScheduleUtility cb_ok [VInt 1] []; Tick 0; Tick 1; Tick 2;
          Tick 0; Tick 1; Tick 2; Tick 0; Tick 1; Tick 2]
      (EventDispatcher VNone (1 # 10) false 0) = Some s' /\
    contents 0 s' = [(cb_ok, [VInt 1], [])] /\ world s' = [].
Proof.
  set (sched := [ScheduleUtility cb_ok [VInt 1] []; Tick 0; Tick 1; Tick 2;
          Tick 0; Tick 1; Tick 2; Tick 0; Tick 1; Tick 2]).
  destruct (exec sched (EventDispatcher VNone (1 # 10) false 0)) as [s'|] eqn:He;
    [|by vm_compute in He].
  exists s'. split; [reflexivity|].
  destruct (utility_queue_without_workers VNone (1 # 10) false 0 sched s')
    as (_ & _ & Hc); [lia|exact He|].
  split.
  - change (_utility_queue (EventDispatcher VNone (1 # 10) false 0)) with 0%nat in Hc.
    rewrite Hc. vm_compute in He. injection He as <-. reflexivity.
  - vm_compute in He. injection He as <-. reflexivity.
Defined.

(** ** From the client's call to the callback *)

Lemma finish_resumes tid t r s w :
  thread_at tid s = Some w ->
  thread_at tid (finish tid t r s) = Some (set_phase (resumes r) w) /\
  history (finish tid t r s) = history s ++ [EvRun tid t r] /\
  logger (finish tid t r s) = logger s ++ caught [EvRun tid t r] /\
  (forall q, contents q (finish tid t r s) = contents q s) /\
  world (finish tid t r s) = world s.
Proof.
  intros Hw. unfold finish, resumes, caught.
  destruct r as [v|e]; [|destruct (is_Exception e) eqn:He]; simpl; rewrite ?He;
    split_and!; try done; rewrite ?app_nil_r; try done;
    autorewrite with store; rewrite decide_True by done; by rewrite Hw.
Qed.

(** The four steps of a worker at the head of its loop, with a timeout that
    is not negative, whose queue starts with a task for a function that has
    a name: the test of the loop, [queue.get], line 41 and line 42. *)
Lemma run_one_function tid s w n m body args kw rest :
  thread_at tid s = Some w -> t_phase w = LoopHead -> _stop_event s = false ->
  negative (t_timeout w) = false ->
  contents (t_queue w) s = (Func (Some n) m body, args, kw) :: rest ->
  exists s',
    exec [Tick tid; Tick tid; Tick tid; Tick tid] s = Some s' /\
    world s' = fst (body args kw (world s)) /\
    history s' = history s ++
      [EvGet tid (t_queue w) (Func (Some n) m body, args, kw);
       EvBegin tid (Func (Some n) m body, args, kw);
       EvCall (Func (Some n) m body) args kw;
       EvRun tid (Func (Some n) m body, args, kw) (snd (body args kw (world s)))] /\
    contents (t_queue w) s' = rest /\
    phase_of tid s' = Some (resumes (snd (body args kw (world s)))) /\
    current_of tid s' = Some (n, kwargs_get "pvname" kw) /\
    logger s' = logger s ++
      caught [EvRun tid (Func (Some n) m body, args, kw)
                (snd (body args kw (world s)))].
Proof.
  intros Hw Hp Hflag Hn Hq.
  set (t := (Func (Some n) m body, args, kw)) in *.
  set (i := (n, kwargs_get "pvname" kw)).
  set (s1 := with_thread tid (set_phase Polling) s).
  assert (H1 : step (Tick tid) s = Some s1).
  { apply (tick_to_step _ w); [done|]. subst s1.
    replace Polling with (if _stop_event s then Exiting else Polling)
      by (by rewrite Hflag).
    by apply tick_to_LoopHead. }
  assert (Hw1 : thread_at tid s1 = Some (set_phase Polling w)).
  { subst s1. autorewrite with store. rewrite decide_True by done. by rewrite Hw. }
  set (s2 := with_thread tid (set_phase (Running t))
               (with_event (EvGet tid (t_queue w) t)
                  (with_queue (t_queue w) rest s1))).
  assert (H2 : step (Tick tid) s1 = Some s2).
  { apply (tick_to_step _ (set_phase Polling w)); [done|].
    exact (tick_to_Polling_task tid (set_phase Polling w) s1 t rest eq_refl Hn Hq). }
  set (w2 := set_phase (Running t) (set_phase Polling w)).
  assert (Hw2 : thread_at tid s2 = Some w2).
  { subst s2. autorewrite with store. rewrite decide_True by done. by rewrite Hw1. }
  set (s3 := with_thread tid (set_phase (Calling t))
               (with_event (EvBegin tid t)
                  (with_thread tid (set_current_callback (Some i)) s2))).
  assert (H3 : step (Tick tid) s2 = Some s3).
  { apply (tick_to_step _ w2); [done|]. by apply tick_to_Running_named. }
  set (w3 := set_phase (Calling t) (set_current_callback (Some i) w2)).
  assert (Hw3 : thread_at tid s3 = Some w3).
  { subst s3. autorewrite with store. rewrite !decide_True by done.
    by rewrite Hw2. }
  pose proof (tick_to_step tid w3 s3 _ Hw3 (tick_to_Calling tid w3 s3 t eq_refl))
    as H4.
  assert (Hcall : call_task t s3 =
                  (snd (body args kw (world s)),
                   set_world (fst (body args kw (world s)))
                     (with_event (EvCall (Func (Some n) m body) args kw) s3))).
  { subst t. unfold call_task. by rewrite call_Func. }
  rewrite Hcall in H4. cbn [fst snd] in H4.
  set (r := snd (body args kw (world s))) in *.
  set (s4 := set_world (fst (body args kw (world s)))
               (with_event (EvCall (Func (Some n) m body) args kw) s3)) in *.
  assert (Hw4 : thread_at tid s4 = Some w3) by exact Hw3.
  destruct (finish_resumes tid t r s4 w3 Hw4) as (F1 & F2 & F3 & F4 & F5).
  exists (finish tid t r s4). split_and!.
  - cbn [exec]. rewrite H1. cbn [mbind option_bind]. rewrite H2.
    cbn [mbind option_bind]. rewrite H3. cbn [mbind option_bind].
    by rewrite H4.
  - by rewrite F5.
  - rewrite F2. subst s4 s3 s2 s1. simpl. by rewrite <- !app_assoc.
  - rewrite F4. subst s4 s3 s2 s1. autorewrite with store.
    by rewrite decide_True.
  - unfold phase_of. by rewrite F1.
  - unfold current_of. by rewrite F1.
  - by rewrite F3.
Qed.

(** X12: [schedule_utility_task] never fails and checks nothing; with an
    idle utility worker at the head of its loop, whose timeout is not
    negative, an empty utility queue and the stop event unset, the worker's
    next four steps run the callback once, with the arguments that the call
    was given: the shared environment is what the callback makes of it,
    [current_callback] is the callback's name with [kwargs.get('pvname')]
    and the queue is empty again.  When the callback returned, or raised an
    exception that derives from [Exception], the worker is back at the head
    of its loop, and the logger has gained a record in the second case
    only; when it raised any other exception the worker is over and the
    logger has gained nothing. *)
Theorem scheduled_utility_task_is_run tid s w n m body args kw :
  thread_at tid s = Some w -> t_queue w = _utility_queue s ->
  t_phase w = LoopHead -> _stop_event s = false -> (0 <= t_timeout w)%Q ->
  contents (_utility_queue s) s = [] ->
  exists s',
    exec [ScheduleUtility (Func (Some n) m body) args kw;
          Tick tid; Tick tid; Tick tid; Tick tid] s = Some s' /\
    world s' = fst (body args kw (world s)) /\
    calls (drop (length (history s)) (history s')) = [Func (Some n) m body] /\
    runs_of tid (drop (length (history s)) (history s')) =
      [(Func (Some n) m body, args, kw)] /\
    contents (_utility_queue s) s' = [] /\
    current_of tid s' = Some (n, kwargs_get "pvname" kw) /\
    phase_of tid s' =
      Some (match snd (body args kw (world s)) with
            | inl _ => LoopHead
            | inr e => if is_Exception e then LoopHead else Crashed e
            end) /\
    logger s' = logger s ++
      match snd (body args kw (world s)) with
      | inl _ => []
      | inr e =>
          if is_Exception e
          then [LogException "Exception occurred during callback %r (pvname=%r)"
                  (Func (Some n) m body) (kwargs_get "pvname" kw)]
          else []
      end.
Proof.
  intros Hw Hq Hp Hflag Htmo Hempty. apply negative_false in Htmo.
  set (c := Func (Some n) m body) in *.
  set (s0 := with_event (EvPut (_utility_queue s) (c, args, kw))
               (with_queue (_utility_queue s)
                  (contents (_utility_queue s) s ++ [(c, args, kw)]) s)).
  assert (H0 : step (ScheduleUtility c args kw) s = Some s0) by done.
  destruct (run_one_function tid s0 w n m body args kw [])
    as (s' & He & Hworld & Hh & Hc & Hph & Hcur & Hl);
    [done|done|done|done| |].
  { subst s0. autorewrite with store. rewrite Hq, decide_True by done.
    by rewrite Hempty. }
  exists s'. split_and!.
  - cbn [exec] in *. rewrite H0. cbn [mbind option_bind]. exact He.
  - done.
  - rewrite Hh. subst s0. simpl. rewrite <- app_assoc, drop_app_length.
    unfold calls. simpl. done.
  - rewrite Hh. subst s0. simpl. rewrite <- app_assoc, drop_app_length.
    unfold runs_of. simpl. by rewrite decide_True.
  - by rewrite <- Hq.
  - done.
  - rewrite Hph. unfold resumes. done.
  - rewrite Hl. change (world s0) with (world s).
    change (logger s0) with (logger s). unfold caught.
    destruct (snd (body args kw (world s))) as [v|e];
      [|destruct (is_Exception e) eqn:Hex]; simpl; by rewrite ?Hex.
Qed.

Lemma scheduled_utility_task_is_run_witness :
  exists s',
    exec [ScheduleUtility cb_ok [VInt 5] []; Tick 3; Tick 3; Tick 3; Tick 3]
      (default default_dispatcher (exec [Tick 3] default_dispatcher)) = Some s' /\
    world s' = [VInt 5].
Proof.
  set (s := default default_dispatcher (exec [Tick 3] default_dispatcher)).
  destruct (scheduled_utility_task_is_run 3 s
              (mkThread "util0" VNone None 0 (1 # 10) true LoopHead)
              "cb" false (fun args _ w => (w ++ args, inl VNone)) [VInt 5] [])
    as (s' & He & Hworld & _);
    [by vm_compute|reflexivity|reflexivity|by vm_compute|by vm_compute
    |by vm_compute|].
  exists s'. split; [exact He|]. rewrite Hworld. by vm_compute.
Defined.

(** X13: wrapping and calling, end to end.  For a category of [_threads]
    whose worker is idle at the head of its loop, with a timeout that is not
    negative, an empty queue and the stop event unset, the callable that
    [wrap_callback] returns for a named, unmarked function does not run it
    when called; the worker's next four steps then run it once with the
    arguments of the call and leave its queue empty.  The worker is then
    back at the head of its loop, unless the function raised an exception
    that does not derive from [Exception], which ends the worker. *)
Theorem wrapped_call_is_run_by_the_worker s event_type tid w n body args kw :
  dict_get event_type (_threads s) = Some tid -> thread_at tid s = Some w ->
  t_phase w = LoopHead -> _stop_event s = false -> (0 <= t_timeout w)%Q ->
  contents (t_queue w) s = [] ->
  exists wc s0 s',
    wrap_callback event_type (Some (Func (Some n) false body)) s =
      (inl (Some wc), s) /\
    step (Invoke wc args kw) s = Some s0 /\
    world s0 = world s /\
    exec [Tick tid; Tick tid; Tick tid; Tick tid] s0 = Some s' /\
    world s' = fst (body args kw (world s)) /\
    calls (drop (length (history s)) (history s')) =
      [wc; Func (Some n) false body] /\
    contents (t_queue w) s' = [] /\
    phase_of tid s' =
      Some (match snd (body args kw (world s)) with
            | inl _ => LoopHead
            | inr e => if is_Exception e then LoopHead else Crashed e
            end) /\
    current_of tid s' = Some (n, kwargs_get "pvname" kw).
Proof.
  intros Hget Hw Hp Hflag Htmo Hempty. apply negative_false in Htmo.
  set (c := Func (Some n) false body) in *.
  exists (wrapped (t_queue w) c).
  set (s0 := snd (call (wrapped (t_queue w) c) args kw s)).
  assert (Hs0 : s0 = with_event (EvPut (t_queue w) (c, args, kw))
                       (with_queue (t_queue w) (contents (t_queue w) s ++ [(c, args, kw)])
                          (with_event (EvCall (wrapped (t_queue w) c) args kw) s))).
  { subst s0. by rewrite call_wrapped. }
  destruct (run_one_function tid s0 w n false body args kw [])
    as (s' & He & Hworld & Hh & Hc & Hph & Hcur & _);
    [by rewrite Hs0|done|by rewrite Hs0|done| |].
  { rewrite Hs0. autorewrite with store. rewrite decide_True by done.
    by rewrite Hempty. }
  exists s0, s'. split_and!.
  - unfold wrap_callback. monad_unfold. simpl. by rewrite Hget, Hw.
  - done.
  - by rewrite Hs0.
  - done.
  - rewrite Hworld. by rewrite Hs0.
  - rewrite Hh, Hs0. simpl. rewrite <- !app_assoc, drop_app_length. done.
  - done.
  - rewrite Hph, Hs0. done.
  - done.
Qed.

Lemma wrapped_call_is_run_by_the_worker_witness :
  exists wc s0 s',
    wrap_callback "get_put" (Some cb_ok)
      (default default_dispatcher (exec [Tick 2] default_dispatcher)) =
      (inl (Some wc),
       default default_dispatcher (exec [Tick 2] default_dispatcher)) /\
    step (Invoke wc [VInt 9] [])
      (default default_dispatcher (exec [Tick 2] default_dispatcher)) = Some s0 /\
    exec [Tick 2; Tick 2; Tick 2; Tick 2] s0 = Some s' /\
    world s' = [VInt 9].
Proof.
  set (s := default default_dispatcher (exec [Tick 2] default_dispatcher)).
  destruct (wrapped_call_is_run_by_the_worker s "get_put" 2
              (mkThread "get_put" VNone None 3 (1 # 10) true LoopHead)
              "cb" (fun args _ w => (w ++ args, inl VNone)) [VInt 9] [])
    as (wc & s0 & s' & Hwrap & Hs0 & _ & He & Hworld & _);
    [by vm_compute|reflexivity|reflexivity|by vm_compute|by vm_compute
    |by vm_compute|].
  exists wc, s0, s'. split; [exact Hwrap|]. split; [exact Hs0|].
  split; [exact He|]. rewrite Hworld. by vm_compute.
Defined.

(** ** A negative timeout *)

Lemma negative_true q : negative q = true <-> (q < 0)%Q.
Proof.
  unfold negative. rewrite negb_true_iff. split.
  - intros H. apply Qnot_le_lt. intros Hle. apply Qle_bool_iff in Hle. congruence.
  - intros H. destruct (Qle_bool 0 q) eqn:Hb; [|done].
    apply Qle_bool_iff in Hb. by apply Qlt_not_le in H.
Qed.

Lemma constructed_timeout ctx tmo dbg n tid w :
  thread_at tid (constructed ctx tmo dbg n) = Some w -> t_timeout w = tmo.
Proof.
  unfold thread_at. simpl. intros H.
  destruct tid as [|[|[|k]]]; simpl in H; simplify_eq; try done.
  change (map ?f ?l) with (f <$> l) in H.
  rewrite list_lookup_fmap in H.
  by destruct (util_names n !! k) as [name|]; simplify_eq/=.
Qed.

Lemma timeout_step a s s' :
  step a s = Some s' ->
  forall tid, t_timeout <$> thread_at tid s' = t_timeout <$> thread_at tid s.
Proof.
  intros H tid.
  destruct (step_frame _ _ _ H) as (_ & _ & _ & F4 & _).
  assert (Hother : a <> Tick tid ->
            t_timeout <$> thread_at tid s' = t_timeout <$> thread_at tid s).
  { intros Hne. by rewrite F4. }
  destruct a as [tid0| | | | | |]; try (by apply Hother).
  destruct (decide (tid0 = tid)) as [->|Hne]; [|apply Hother; congruence].
  clear Hother. apply tick_inv in H as (w & Hw & Ht).
  destruct Ht as [Hp|Hp|Hp Hn|Hp Hn Hq|t rest Hp Hn Hq|t i Hp Hi|t Hp Hi|t Hp|Hp].
  1-6, 9: autorewrite with store; rewrite ?decide_True by done; by rewrite Hw.
  - destruct (finish_phase tid t (inr (AttributeError "__name__")) _ _ Hw)
      as (w' & Hw' & _ & Ht & _).
    rewrite Hw', Hw. simpl. by rewrite Ht.
  - pose proof (call_task_thread tid t s) as Hw1. rewrite Hw in Hw1.
    destruct (finish_phase tid t (fst (call_task t s)) _ _ Hw1)
      as (w' & Hw' & _ & Ht & _).
    rewrite Hw', Hw. simpl. by rewrite Ht.
Qed.

Lemma starves_refl s : starves s s.
Proof. intros Hh. split; [done|]. exists []. by rewrite app_nil_r. Qed.

Lemma starves_trans s1 s2 s3 : starves s1 s2 -> starves s2 s3 -> starves s1 s3.
Proof.
  intros H12 H23 Hh. destruct (H12 Hh) as (Hh2 & h1 & Hh1 & Hg1).
  destruct (H23 Hh2) as (Hh3 & h2 & Hh2' & Hg2). split; [done|].
  exists (h1 ++ h2). split; [by rewrite Hh2', Hh1, app_assoc|].
  intros tid. unfold gets_of in *. by rewrite omap_app, Hg1, Hg2.
Qed.

Lemma starves_step a s s' : step a s = Some s' -> starves s s'.
Proof.
  intros H Hh. split.
  - intros tid w' Hw'. pose proof (timeout_step _ _ _ H tid) as Ht.
    rewrite Hw' in Ht. simpl in Ht.
    destruct (thread_at tid s) as [w|] eqn:Hw; [|done]. simpl in Ht.
    injection Ht as ->. by eapply Hh.
  - pose proof H as H'. step_cases H'.
    + apply tick_inv in H as (w & Hw & Ht).
      destruct Ht as [Hp|Hp|Hp Hn|Hp Hn Hq|t rest Hp Hn Hq|t i Hp Hi|t Hp Hi|t Hp|Hp].
      * exists []. by rewrite app_nil_r.
      * exists []. by rewrite app_nil_r.
      * exists []. by rewrite app_nil_r.
      * exists []. by rewrite app_nil_r.
      * rewrite (Hh _ _ Hw) in Hn. done.
      * by exists [EvBegin tid t].
      * by exists [EvRun tid t (inr (AttributeError "__name__"))].
      * destruct (call_task_effect t s) as (h & Hh' & Hqt & _).
        destruct (finish_effect tid t (fst (call_task t s)) (snd (call_task t s)))
          as (p & _ & Hfh & _).
        exists (h ++ [EvRun tid t (fst (call_task t s))]). split.
        -- by rewrite Hfh, Hh', app_assoc.
        -- intros tid'. unfold gets_of. rewrite omap_app. fold (gets_of tid' h).
           by rewrite quiet_gets_of.
      * exists []. by rewrite app_nil_r.
    + destruct (call_effect c args kw s) as (h & Hh' & Hqt & _).
      exists h. split; [done|]. intros tid. by apply quiet_gets_of.
    + by exists [EvPut (_utility_queue s) (c, args, kw)].
    + exists []. by rewrite app_nil_r.
    + exists []. by rewrite app_nil_r.
    + exists []. by rewrite app_nil_r.
    + exists []. by rewrite app_nil_r.
    + exists []. by rewrite app_nil_r.
Qed.

(** X14: a negative timeout.  [queue.get] raises [ValueError] before it
    looks at the queue, and that outside the inner [try]: the first poll of
    a worker ends it, with nothing logged, [detach_context] not run, no
    task taken and nothing else changed.  So a dispatcher that is
    constructed with a negative timeout never runs a task: across any
    schedule no worker takes anything from a queue or comes to the end of a
    [try], every worker is over after three steps of its own, and the tasks
    that the clients put stay in their queues. *)
Theorem negative_timeout_ends_the_workers :
  (forall tid s w,
     thread_at tid s = Some w -> t_phase w = Polling -> (t_timeout w < 0)%Q ->
     exists s1,
       step (Tick tid) s = Some s1 /\
       phase_of tid s1 = Some (Crashed negative_timeout) /\
       alive tid s1 = false /\
       logger s1 = logger s /\
       history s1 = history s /\
       queue_store s1 = queue_store s /\
       t_context <$> thread_at tid s1 = Some (t_context w) /\
       (forall tid', tid' <> tid -> thread_at tid' s1 = thread_at tid' s)) /\
  (forall ctx tmo dbg n sched s',
     (tmo < 0)%Q -> exec sched (EventDispatcher ctx tmo dbg n) = Some s' ->
     (forall tid, gets_of tid (history s') = [] /\ runs_of tid (history s') = []) /\
     (forall q, contents q s' = puts_on q (history s'))) /\
  (forall ctx tmo dbg n tid,
     (tmo < 0)%Q -> (tid < 3 + Z.to_nat n)%nat ->
     exists s',
       exec [Tick tid; Tick tid; Tick tid] (EventDispatcher ctx tmo dbg n) = Some s' /\
       phase_of tid s' = Some (Crashed negative_timeout)).
Proof.
  split_and!.
  - intros tid s w Hw Hp Hn. apply negative_true in Hn.
    pose proof (tick_to_step tid w s _ Hw (tick_to_Polling_negative tid w s Hp Hn))
      as Hstep.
    eexists. split; [exact Hstep|].
    unfold phase_of, alive. autorewrite with store.
    rewrite !decide_True by done. rewrite Hw. simpl. split_and!; try done.
    intros tid' Hne. autorewrite with store. by case_decide.
  - intros ctx tmo dbg n sched s' Hn He. apply negative_true in Hn.
    rewrite EventDispatcher_constructed in He.
    assert (starves (constructed ctx tmo dbg n) s') as Hs.
    { revert He. apply (exec_preorder starves);
        [apply starves_refl|apply starves_trans|apply starves_step]. }
    destruct Hs as (_ & h & Hh & Hg).
    { intros tid w Hw. by rewrite (constructed_timeout _ _ _ _ _ _ Hw). }
    pose proof (follows_exec _ _ _ He) as (h' & Hh' & Hc & Hr & _).
    cbn [history constructed app] in Hh, Hh'. subst h h'.
    assert (Hgf : forall q, gets_from q (history s') = []).
    { intros q. clear -Hg. induction (history s') as [|e l IH]; [done|].
      assert (forall tid, gets_of tid l = []) as Hl.
      { intros tid. specialize (Hg tid). unfold gets_of in *. simpl in Hg.
        destruct e as [|tid' q' t| | |]; try done.
        destruct (decide (tid' = tid)); [done|]. exact Hg. }
      destruct e as [|tid' q' t| | |]; try (by apply IH).
      specialize (Hg tid'). unfold gets_of in Hg. simpl in Hg.
      by rewrite decide_True in Hg. }
    split.
    + intros tid. split; [done|]. specialize (Hr tid).
      rewrite Hg, app_nil_r in Hr.
      assert (inflight tid (constructed ctx tmo dbg n) = []) as Hi.
      { unfold inflight, phase_of.
        destruct (thread_at tid (constructed ctx tmo dbg n)) as [w|] eqn:Hw; [|done].
        apply constructed_thread_inv in Hw as (_ & Hp & _). simpl. by rewrite Hp. }
      rewrite Hi in Hr. by apply app_eq_nil in Hr as [? _].
    + intros q. specialize (Hc q). rewrite Hgf in Hc. simpl in Hc. rewrite Hc.
      assert (contents q (constructed ctx tmo dbg n) = []) as ->; [|done].
      unfold contents. cbn [queue_store constructed].
      destruct (decide (q = 3%nat)) as [->|]; [by rewrite lookup_total_insert_eq|].
      rewrite lookup_total_insert_ne by done.
      destruct (decide (q = 2%nat)) as [->|]; [by rewrite lookup_total_insert_eq|].
      rewrite lookup_total_insert_ne by done.
      destruct (decide (q = 1%nat)) as [->|]; [by rewrite lookup_total_insert_eq|].
      rewrite lookup_total_insert_ne by done.
      destruct (decide (q = 0%nat)) as [->|]; [by rewrite lookup_total_singleton_eq|].
      by rewrite lookup_total_singleton_ne.
  - intros ctx tmo dbg n tid Hn Hlt. apply negative_true in Hn.
    rewrite EventDispatcher_constructed.
    set (s := constructed ctx tmo dbg n).
    assert (exists w, thread_at tid s = Some w) as [w Hw].
    { apply lookup_lt_is_Some. subst s. cbn [thread_store constructed].
      rewrite length_app, length_map, util_names_length. simpl. lia. }
    pose proof (constructed_timeout _ _ _ _ _ _ Hw) as Ht.
    pose proof Hw as (_ & Hp & _)%constructed_thread_inv.
    assert (_stop_event s = false) as Hflag by done.
    pose proof (tick_to_step tid w s _ Hw (tick_to_Started tid w s Hp)) as H1.
    match type of H1 with _ = Some ?x => set (s1 := x) in * end.
    assert (Hw1 : thread_at tid s1 = Some (set_phase LoopHead w)).
    { subst s1. autorewrite with store. rewrite decide_True by done. by rewrite Hw. }
    pose proof (tick_to_step tid _ s1 _ Hw1
                  (tick_to_LoopHead tid (set_phase LoopHead w) s1 eq_refl)) as H2.
    replace (_stop_event s1) with false in H2 by done.
    match type of H2 with _ = Some ?x => set (s2 := x) in * end.
    assert (Hw2 : thread_at tid s2 = Some (set_phase Polling (set_phase LoopHead w))).
    { subst s2. autorewrite with store. rewrite decide_True by done. by rewrite Hw1. }
    assert (Hn2 : negative (t_timeout (set_phase Polling (set_phase LoopHead w))) = true).
    { simpl. by rewrite Ht. }
    pose proof (tick_to_step tid _ s2 _ Hw2
                  (tick_to_Polling_negative tid
                     (set_phase Polling (set_phase LoopHead w)) s2 eq_refl Hn2))
      as H3.
    eexists. split.
    + cbn [exec]. rewrite H1. cbn [mbind option_bind]. rewrite H2.
      cbn [mbind option_bind]. by rewrite H3.
    + unfold phase_of. autorewrite with store. rewrite !decide_True by done.
      by rewrite Hw2.
Qed.

Lemma negative_timeout_ends_the_workers_witness :
  exists s',
    exec [Invoke (wrapped 2 cb_ok) [VInt 1] []; Tick 1; Tick 1; Tick 1]
      (EventDispatcher VNone (-1 # 10) false 4) = Some s' /\
    alive 1 s' = false /\ world s' = [] /\
    contents 2 s' = [(cb_ok, [VInt 1], [])].
Proof.
  set (sched := [Invoke (wrapped 2 cb_ok) [VInt 1] []; Tick 1; Tick 1; Tick 1]).
  destruct (exec sched (EventDispatcher VNone (-1 # 10) false 4)) as [s'|] eqn:He;
    [|by vm_compute in He].
  destruct negative_timeout_ends_the_workers as (_ & Hnever & _).
  destruct (Hnever VNone (-1 # 10) false 4%Z sched s' ltac:(by vm_compute) He)
    as [_ Hc].
  exists s'. split; [reflexivity|].
  split; [by vm_compute in He; injection He as <-; vm_compute|].
  split; [by vm_compute in He; injection He as <-; vm_compute|].
  rewrite Hc. vm_compute in He. injection He as <-. reflexivity.
Defined.
